(** * MessagePumpUV: the libuv-backed message pump of base/message_pump_uv.cc

    A shallow embedding of [base::MessagePumpUV] (constructor, destructor,
    [Run], [Quit], [ScheduleWork], [ScheduleDelayedWork]) as state-passing
    functions that also log the calls they make, and the properties of its
    run loop. *)

From Stdlib Require Import ZArith List Bool Lia.
Import ListNotations.
Local Open Scope Z_scope.

(** ** Time values (base/time.h) *)

Module Time.

(** Modelled from the spec: base/time.h, which declares [TimeTicks] and
    [TimeDelta], is not among the files of the pump.  The deadline is "an
    optional absolute timestamp; null means no pending delayed work
    known".  As in Chromium's base library, both classes wrap an [int64]
    count of microseconds, and [TimeTicks()], the null value, is the
    count 0. *)
Definition TimeTicks := Z.
Definition TimeDelta := Z.

Definition wrap64 (z : Z) : Z := (z + 2 ^ 63) mod 2 ^ 64 - 2 ^ 63.

Definition null : TimeTicks := 0.
Definition is_null (t : TimeTicks) : bool := t =? 0.

(** Modelled from the spec: [TimeTicks::operator-(TimeTicks)], "the
    remaining duration"; the difference of the two counts, computed on
    [int64]. *)
Definition minus (a b : TimeTicks) : TimeDelta := wrap64 (a - b).

(** [TimeDelta()] is the zero duration; [operator>] compares the counts. *)
Definition zero : TimeDelta := 0.
Definition gt (a b : TimeDelta) : bool := b <? a.

Definition kMicrosecondsPerMillisecond : Z := 1000.

(** Modelled from the spec: [TimeDelta::InMilliseconds()] of base/time.h.
    The timer is there "to guarantee the reactor poll does not block past
    the deadline", and a deadline 50ms ahead arms "a timer for <=50ms":
    the conversion to whole milliseconds does not round up.  It is the
    signed quotient of the microsecond count by
    [kMicrosecondsPerMillisecond], rounding toward zero as C++ integer
    division does, which is what the member is in Chromium's base library
    (the rounded-up value is another member, [InMillisecondsRoundedUp()]).
    The pump below takes the conversion as a field of [Build], so what is
    proved of the pump holds for any conversion; this definition is the
    instance used when a run is evaluated. *)
Definition InMilliseconds (d : TimeDelta) : Z :=
  Z.quot d kMicrosecondsPerMillisecond.

End Time.

(** ** What the pump takes from headers other than its own *)

(** [DCHECK] (base/logging.h) aborts the process when its condition is false
    in builds where [DCHECK_IS_ON], and is compiled out otherwise. *)
Record Build := {
  DCHECK_IS_ON : bool;
  InMilliseconds : Time.TimeDelta -> Z
}.

Definition chromium_build (dcheck : bool) : Build :=
  {| DCHECK_IS_ON := dcheck; InMilliseconds := Time.InMilliseconds |}.

(** ** Pointers, loops, the pump object *)

Definition ptr := nat.
Definition NULL : ptr := 0%nat.

(** A [uv_loop_t*]: the process-wide [uv_default_loop()] or a loop made by
    [uv_loop_new()]. *)
Inductive uv_loop : Type :=
| uv_default_loop
| uv_loop_at (p : ptr).

(** The fields of the pump.  [nesting_level_] counts the [Run] invocations
    on the C++ call stack and is kept as an unbounded integer. *)
Record MessagePumpUV := {
  keep_running_ : bool;
  nesting_level_ : Z;
  delayed_work_time_ : Time.TimeTicks;
  wakeup_event_ : ptr;
  wakeup_event_ref_ : ptr
}.

(** The machine state: the pump's fields and the next address the
    allocator hands out (every [new] and [uv_loop_new] gets a fresh one). *)
Record State := {
  pump : MessagePumpUV;
  brk : ptr
}.

(** ** The log of calls *)

Inductive Step : Type :=
| Immediate   (* delegate->DoWork() *)
| Delayed     (* delegate->DoDelayedWork(&delayed_work_time_) *)
| Tick        (* node::CallTickCallback(...) *)
| Idle        (* delegate->DoIdleWork() *)
| Poll.       (* uv_run(loop, UV_RUN_ONCE) *)

(** [EvStep lvl s]: the [Run] invocation whose [nesting_level_] is [lvl]
    starts step [s] of its loop.  The timer and idle calls around a poll
    carry the level the same way. *)
Inductive Event : Type :=
| Ev_uv_loop_new (l : ptr)
| Ev_new_async (h : ptr)
| Ev_uv_async_init (l : uv_loop) (h : ptr)
| Ev_uv_idle_init (l : uv_loop)
| Ev_uv_timer_init (l : uv_loop)
| EvStep (lvl : Z) (s : Step)
| Ev_uv_timer_start (lvl : Z) (timeout : Z)
| Ev_uv_idle_stop (lvl : Z)
| Ev_uv_timer_stop (lvl : Z)
| Ev_uv_loop_delete (l : uv_loop)
| Ev_delete_async (h : ptr)
| Ev_uv_async_send (h : ptr)
| Ev_Quit.

(** The steps that the invocation at level [lvl] started, in order. *)
Fixpoint steps_at (lvl : Z) (evs : list Event) : list Step :=
  match evs with
  | [] => []
  | EvStep l s :: evs' =>
      if l =? lvl then s :: steps_at lvl evs' else steps_at lvl evs'
  | _ :: evs' => steps_at lvl evs'
  end.

(** The timeouts handed to [uv_timer_start], at any level, in order. *)
Fixpoint timer_timeouts (evs : list Event) : list Z :=
  match evs with
  | [] => []
  | Ev_uv_timer_start _ ms :: evs' => ms :: timer_timeouts evs'
  | _ :: evs' => timer_timeouts evs'
  end.

(** ** A state, log and failure monad *)

Inductive Outcome (A : Type) : Type :=
| Done (a : A)      (* returned *)
| OutOfFuel         (* still running when the fuel ran out *)
| Fatal.            (* a DCHECK failed: the process aborted *)
Arguments Done {A} a.
Arguments OutOfFuel {A}.
Arguments Fatal {A}.

Definition M (A : Type) : Type := State -> list Event * Outcome (A * State).

Definition ret {A} (a : A) : M A := fun s => ([], Done (a, s)).

Definition bind {A B} (m : M A) (f : A -> M B) : M B :=
  fun s =>
    match m s with
    | (ev, Done (a, s')) => let r := f a s' in (ev ++ fst r, snd r)
    | (ev, OutOfFuel) => (ev, OutOfFuel)
    | (ev, Fatal) => (ev, Fatal)
    end.

Notation "x <- m ;; k" := (bind m (fun x => k))
  (at level 61, m at next level, right associativity).
Notation "m ;;; k" := (bind m (fun _ => k))
  (at level 61, right associativity).

Definition emit (ev : Event) : M unit := fun s => ([ev], Done (tt, s)).
Definition get {A} (f : MessagePumpUV -> A) : M A :=
  fun s => ([], Done (f (pump s), s)).
Definition update (f : MessagePumpUV -> MessagePumpUV) : M unit :=
  fun s => ([], Done (tt, {| pump := f (pump s); brk := brk s |})).
Definition alloc : M ptr :=
  fun s => ([], Done (brk s, {| pump := pump s; brk := S (brk s) |})).
Definition abort {A} : M A := fun _ => ([], Fatal).
Definition out_of_fuel {A} : M A := fun _ => ([], OutOfFuel).

Definition set_keep_running (b : bool) (p : MessagePumpUV) :=
  {| keep_running_ := b; nesting_level_ := nesting_level_ p;
     delayed_work_time_ := delayed_work_time_ p;
     wakeup_event_ := wakeup_event_ p;
     wakeup_event_ref_ := wakeup_event_ref_ p |}.
Definition set_nesting_level (n : Z) (p : MessagePumpUV) :=
  {| keep_running_ := keep_running_ p; nesting_level_ := n;
     delayed_work_time_ := delayed_work_time_ p;
     wakeup_event_ := wakeup_event_ p;
     wakeup_event_ref_ := wakeup_event_ref_ p |}.
Definition set_delayed_work_time (t : Time.TimeTicks) (p : MessagePumpUV) :=
  {| keep_running_ := keep_running_ p; nesting_level_ := nesting_level_ p;
     delayed_work_time_ := t;
     wakeup_event_ := wakeup_event_ p;
     wakeup_event_ref_ := wakeup_event_ref_ p |}.
Definition set_wakeup_event (h : ptr) (p : MessagePumpUV) :=
  {| keep_running_ := keep_running_ p; nesting_level_ := nesting_level_ p;
     delayed_work_time_ := delayed_work_time_ p;
     wakeup_event_ := h;
     wakeup_event_ref_ := wakeup_event_ref_ p |}.
Definition set_wakeup_event_ref (h : ptr) (p : MessagePumpUV) :=
  {| keep_running_ := keep_running_ p; nesting_level_ := nesting_level_ p;
     delayed_work_time_ := delayed_work_time_ p;
     wakeup_event_ := wakeup_event_ p;
     wakeup_event_ref_ := h |}.

(** [DCHECK(cond)] *)
Definition DCHECK (b : Build) (cond : bool) : M unit :=
  if DCHECK_IS_ON b && negb cond then abort else ret tt.

(** ** Construction, destruction and the scheduling entry points *)

(** [MessagePumpUV::MessagePumpUV()], run on a machine whose allocator is at
    [brk0]. *)
Definition constructor : M unit :=
  update (fun _ => {| keep_running_ := true; nesting_level_ := 0;
                      delayed_work_time_ := Time.null;
                      wakeup_event_ := NULL; wakeup_event_ref_ := NULL |}) ;;;
  h <- alloc ;;
  emit (Ev_new_async h) ;;;
  update (set_wakeup_event h) ;;;
  update (set_wakeup_event_ref h) ;;;
  emit (Ev_uv_async_init uv_default_loop h).

(** [MessagePumpUV::~MessagePumpUV()] *)
Definition destructor : M unit :=
  h <- get wakeup_event_ ;;
  emit (Ev_delete_async h) ;;;
  update (set_wakeup_event NULL).

(** [MessagePumpUV::Quit()] *)
Definition Quit : M unit :=
  emit Ev_Quit ;;;
  update (set_keep_running false).

(** [MessagePumpUV::ScheduleWork()] *)
Definition ScheduleWork : M unit :=
  h <- get wakeup_event_ref_ ;;
  emit (Ev_uv_async_send h).

(** [MessagePumpUV::ScheduleDelayedWork(delayed_work_time)] *)
Definition ScheduleDelayedWork (t : Time.TimeTicks) : M unit :=
  update (set_delayed_work_time t).

(** ** The pump's collaborators *)

Section Pump.

(** [E] is the state of everything outside the pump: the delegate's
    queues, node's handles, the clock. *)
Variable E : Type.

(** What a callback run on the pump's thread may do to the pump before it
    returns: call its public methods, [Run] included (a nested loop, on
    the same delegate, which can tell the loops apart by the state of
    the world), and read or write [delayed_work_time_] through the
    pointer that [DoDelayedWork] receives.  It does not destroy the
    pump.  [CallRun e k] enters the
    nested loop with the outside world in state [e] and goes on as [k e']
    once it has returned with the world in state [e']. *)
Inductive Callback (A : Type) : Type :=
| Return (a : A)
| CallQuit (k : Callback A)
| CallScheduleWork (k : Callback A)
| CallScheduleDelayedWork (t : Time.TimeTicks) (k : Callback A)
| LoadNextDelayedWorkTime (k : Time.TimeTicks -> Callback A)
| StoreNextDelayedWorkTime (t : Time.TimeTicks) (k : Callback A)
| CallRun (e : E) (k : E -> Callback A).
Arguments Return {A} a.
Arguments CallQuit {A} k.
Arguments CallScheduleWork {A} k.
Arguments CallScheduleDelayedWork {A} t k.
Arguments LoadNextDelayedWorkTime {A} k.
Arguments StoreNextDelayedWorkTime {A} t k.
Arguments CallRun {A} e k.

(** [MessagePump::Delegate]: each method reports whether it did work. *)
Record Delegate := {
  DoWork : E -> Callback (bool * E);
  DoDelayedWork : E -> Callback (bool * E);
  DoIdleWork : E -> Callback (bool * E)
}.

(** node and libuv: whether [node::g_env] is set, what the tick callback
    and one [uv_run(loop, UV_RUN_ONCE)] pass do ([uv_run] is told the
    timeout of the delay timer when it is armed), and the clock. *)
Record Node := {
  g_env : E -> bool;
  CallTickCallback : E -> Callback E;
  uv_run : uv_loop -> option Z -> E -> Callback E;
  Now : E -> Time.TimeTicks * E
}.

Variable build : Build.
Variable node : Node.
Variable delegate : Delegate.

(** Running a callback; [run] is [Run] on this delegate. *)
Fixpoint exec {A} (run : E -> M E) (c : Callback A) : M A :=
  match c with
  | Return a => ret a
  | CallQuit k => Quit ;;; exec run k
  | CallScheduleWork k => ScheduleWork ;;; exec run k
  | CallScheduleDelayedWork t k => ScheduleDelayedWork t ;;; exec run k
  | LoadNextDelayedWorkTime k =>
      t <- get delayed_work_time_ ;; exec run (k t)
  | StoreNextDelayedWorkTime t k =>
      update (set_delayed_work_time t) ;;; exec run k
  | CallRun e k => e' <- run e ;; exec run (k e')
  end.

(** One step of the loop, logged with the current nesting level. *)
Definition step {A} (s : Step) (m : M A) : M A :=
  lvl <- get nesting_level_ ;;
  emit (EvStep lvl s) ;;;
  m.

(** [if (node::g_env) node::CallTickCallback(...)] *)
Definition tick (run : E -> M E) (e : E) : M E :=
  if g_env node e then step Tick (exec run (CallTickCallback node e))
  else ret e.

(** Lines 103-118: nothing was done in this iteration. *)
Definition wait (run : E -> M E) (loop : uv_loop) (e : E) : M E :=
  t <- get delayed_work_time_ ;;
  if Time.is_null t then
    step Poll (exec run (uv_run node loop None e))
  else
    let (now, e1) := Now node e in
    let delay := Time.minus t now in
    if Time.gt delay Time.zero then
      lvl <- get nesting_level_ ;;
      emit (Ev_uv_timer_start lvl (InMilliseconds build delay)) ;;;
      e2 <- step Poll
              (exec run
                 (uv_run node loop (Some (InMilliseconds build delay)) e1)) ;;
      lvl' <- get nesting_level_ ;;
      emit (Ev_uv_idle_stop lvl') ;;;
      emit (Ev_uv_timer_stop lvl') ;;;
      ret e2
    else
      update (set_delayed_work_time Time.null) ;;;
      ret e1.

Inductive Ctl : Type := Break | Continue.

(** The body of [for (;;)], lines 76-120. *)
Definition iteration (run : E -> M E) (loop : uv_loop) (e : E)
  : M (Ctl * E) :=
  r1 <- step Immediate (exec run (DoWork delegate e)) ;;
  k1 <- get keep_running_ ;;
  if negb k1 then ret (Break, snd r1) else
  r2 <- step Delayed (exec run (DoDelayedWork delegate (snd r1))) ;;
  k2 <- get keep_running_ ;;
  if negb k2 then ret (Break, snd r2) else
  if fst r1 || fst r2 then
    e' <- tick run (snd r2) ;; ret (Continue, e')
  else
  r3 <- step Idle (exec run (DoIdleWork delegate (snd r2))) ;;
  k3 <- get keep_running_ ;;
  if negb k3 then ret (Break, snd r3) else
  if fst r3 then
    e' <- tick run (snd r3) ;; ret (Continue, e')
  else
  e' <- wait run loop (snd r3) ;; ret (Continue, e').

(** [MessagePumpUV::Run(delegate)] around a given loop: lines 53-72 before
    it and 123-133 after it.  The V8 isolate and handle scope of lines
    50-51 do not touch the pump and are left out. *)
Definition Run_around (the_loop : uv_loop -> E -> M E) (e : E) : M E :=
  n <- get nesting_level_ ;;
  update (set_nesting_level (n + 1)) ;;;
  k <- get keep_running_ ;;
  DCHECK build k ;;;
  lvl <- get nesting_level_ ;;
  loop <- (if lvl >? 1 then
             l <- alloc ;;
             emit (Ev_uv_loop_new l) ;;;
             h <- alloc ;;
             emit (Ev_new_async h) ;;;
             update (set_wakeup_event_ref h) ;;;
             emit (Ev_uv_async_init (uv_loop_at l) h) ;;;
             ret (uv_loop_at l)
           else ret uv_default_loop) ;;
  emit (Ev_uv_idle_init loop) ;;;
  emit (Ev_uv_timer_init loop) ;;;
  e' <- the_loop loop e ;;
  lvl' <- get nesting_level_ ;;
  (if lvl' >? 1 then
     emit (Ev_uv_loop_delete loop) ;;;
     h <- get wakeup_event_ref_ ;;
     emit (Ev_delete_async h) ;;;
     h0 <- get wakeup_event_ ;;
     update (set_wakeup_event_ref h0)
   else ret tt) ;;;
  update (set_keep_running true) ;;;
  n' <- get nesting_level_ ;;
  update (set_nesting_level (n' - 1)) ;;;
  ret e'.

(** The loop and the nested [Run]s it may enter, on [fuel] iterations in
    all: an iteration beyond the fuel is [OutOfFuel]. *)
Fixpoint main_loop (fuel : nat) (loop : uv_loop) (e : E) : M E :=
  match fuel with
  | O => out_of_fuel
  | S f =>
      r <- iteration (Run_around (main_loop f)) loop e ;;
      match fst r with
      | Break => ret (snd r)
      | Continue => main_loop f loop (snd r)
      end
  end.

Definition Run (fuel : nat) (e : E) : M E := Run_around (main_loop fuel) e.

End Pump.

Arguments Return {E A} a.
Arguments CallQuit {E A} k.
Arguments CallScheduleWork {E A} k.
Arguments CallScheduleDelayedWork {E A} t k.
Arguments LoadNextDelayedWorkTime {E A} k.
Arguments StoreNextDelayedWorkTime {E A} t k.
Arguments CallRun {E A} e k.
Arguments DoWork {E} d e.
Arguments DoDelayedWork {E} d e.
Arguments DoIdleWork {E} d e.
Arguments g_env {E} n e.
Arguments CallTickCallback {E} n e.
Arguments uv_run {E} n l t e.
Arguments Now {E} n e.
Arguments exec {E A} run c.
Arguments tick {E} node run e.
Arguments wait {E} build node run loop e.
Arguments iteration {E} build node delegate run loop e.
Arguments Run_around {E} build the_loop e.
Arguments main_loop {E} build node delegate fuel loop e.
Arguments Run {E} build node delegate fuel e.

(** * ServiceConnector: connecting to services by URL
      (mojo/shell/service_connector.cc) *)

From Stdlib Require String.

Module Connector.

(** A [GURL] is kept as its spec, the string that [GURL::operator<] and
    [operator==] compare. *)
Definition GURL := String.string.

(** A message pipe handle; [MOJO_HANDLE_INVALID] is 0. *)
Definition handle := nat.
Definition is_valid (h : handle) : bool := negb (Nat.eqb h 0).

(** [std::map<GURL, T*>] as the list of its pairs in increasing key
    order: [find] and [operator[]] assignment. *)
Fixpoint find {V : Type} (k : GURL) (m : list (GURL * V)) : option V :=
  match m with
  | [] => None
  | (k', v) :: m' => if String.eqb k k' then Some v else find k m'
  end.

Fixpoint assign {V : Type} (k : GURL) (v : V) (m : list (GURL * V))
  : list (GURL * V) :=
  match m with
  | [] => [(k, v)]
  | (k', v') :: m' =>
      match String.compare k k' with
      | Lt => (k, v) :: m
      | Eq => (k, v) :: m'
      | Gt => (k', v') :: assign k v m'
      end
  end.

(** A [ServiceFactory]: the URL it serves and the end of the pipe that
    its [shell_client_] is bound to. *)
Record ServiceFactory := {
  url_ : GURL;
  shell_client_ : handle
}.

Record ServiceConnector := {
  default_loader_ : ptr;
  url_to_loader_ : list (GURL * ptr);
  url_to_service_factory_ : list (GURL * ptr)
}.

(** The connector, the factories on the heap, and the next free address
    and handle. *)
Record World := {
  connector : ServiceConnector;
  heap : list (ptr * ServiceFactory);
  next_ptr : ptr;
  next_handle : handle
}.

(** Calls out of the connector.  [Load] and [AcceptConnection] are
    virtual calls on a loader and on the client end of a factory; they
    are logged and taken not to call back into the connector before they
    return. *)
Inductive Call : Type :=
| CreateMessagePipe (h0 h1 : handle)
| Load (loader : ptr) (url : GURL) (h : handle)
| AcceptConnection (factory : ptr) (h : handle)
| Delete (factory : ptr).

Inductive Result (A : Type) : Type :=
| Returned (a : A) (w : World)
| CheckFailed        (* a DCHECK failed *)
| NullDereference.   (* a member call through a null pointer *)
Arguments Returned {A} a w.
Arguments CheckFailed {A}.
Arguments NullDereference {A}.

Definition with_connector (c : ServiceConnector) (w : World) : World :=
  {| connector := c; heap := heap w;
     next_ptr := next_ptr w; next_handle := next_handle w |}.

(** [ServiceConnector::ServiceConnector()] *)
Definition empty_connector : ServiceConnector :=
  {| default_loader_ := NULL; url_to_loader_ := [];
     url_to_service_factory_ := [] |}.

Section Operations.

Variable build : Build.

(** [ServiceConnector::SetLoaderForURL(loader, gurl)] *)
Definition SetLoaderForURL (loader : ptr) (gurl : GURL) (w : World)
  : list Call * Result unit :=
  let c := connector w in
  if DCHECK_IS_ON build &&
     negb (match find gurl (url_to_loader_ c) with
           | None => true
           | Some _ => false
           end)
  then ([], CheckFailed)
  else
    ([], Returned tt
           (with_connector
              {| default_loader_ := default_loader_ c;
                 url_to_loader_ := assign gurl loader (url_to_loader_ c);
                 url_to_service_factory_ := url_to_service_factory_ c |}
              w)).

(** [ServiceConnector::GetLoaderForURL(gurl)] *)
Definition GetLoaderForURL (gurl : GURL) (w : World)
  : list Call * Result ptr :=
  let c := connector w in
  match find gurl (url_to_loader_ c) with
  | Some loader => ([], Returned loader w)
  | None =>
      if DCHECK_IS_ON build && Nat.eqb (default_loader_ c) NULL
      then ([], CheckFailed)
      else ([], Returned (default_loader_ c) w)
  end.

(** [new ServiceFactory(connector, url)]: the object is allocated, the
    pipe is made, [shell_client_] is bound to its first end, and the
    loader for the URL is asked to [Load] with the second end. *)
Definition new_ServiceFactory (url : GURL) (w : World)
  : list Call * Result ptr :=
  let p := next_ptr w in
  let h0 := next_handle w in
  let h1 := S (next_handle w) in
  let w1 := {| connector := connector w;
               heap := (p, {| url_ := url; shell_client_ := h0 |})
                       :: heap w;
               next_ptr := S p;
               next_handle := S (S (next_handle w)) |} in
  match GetLoaderForURL url w1 with
  | (_, Returned loader w2) =>
      if Nat.eqb loader NULL
      then ([CreateMessagePipe h0 h1], NullDereference)
      else ([CreateMessagePipe h0 h1; Load loader url h1], Returned p w2)
  | (_, CheckFailed) => ([CreateMessagePipe h0 h1], CheckFailed)
  | (_, NullDereference) => ([CreateMessagePipe h0 h1], NullDereference)
  end.

(** [ServiceFactory::ConnectToClient(handle)] *)
Definition ConnectToClient (factory : ptr) (h : handle) : list Call :=
  if is_valid h then [AcceptConnection factory h] else [].

(** [ServiceConnector::Connect(url, client_handle)] *)
Definition Connect (url : GURL) (client_handle : handle) (w : World)
  : list Call * Result unit :=
  match find url (url_to_service_factory_ (connector w)) with
  | Some service_factory =>
      (ConnectToClient service_factory client_handle, Returned tt w)
  | None =>
      match new_ServiceFactory url w with
      | (log, Returned service_factory w1) =>
          let c := connector w1 in
          (log ++ ConnectToClient service_factory client_handle,
           Returned tt
             (with_connector
                {| default_loader_ := default_loader_ c;
                   url_to_loader_ := url_to_loader_ c;
                   url_to_service_factory_ :=
                     assign url service_factory
                            (url_to_service_factory_ c) |}
                w1))
      | (log, CheckFailed) => (log, CheckFailed)
      | (log, NullDereference) => (log, NullDereference)
      end
  end.

(** A series of [Connect] calls, until one does not return. *)
Fixpoint Connect_all (reqs : list (GURL * handle)) (w : World)
  : list Call * Result unit :=
  match reqs with
  | [] => ([], Returned tt w)
  | (url, h) :: reqs' =>
      match Connect url h w with
      | (log, Returned _ w1) =>
          let r := Connect_all reqs' w1 in (log ++ fst r, snd r)
      | (log, CheckFailed) => (log, CheckFailed)
      | (log, NullDereference) => (log, NullDereference)
      end
  end.

End Operations.

(** [delete] of a factory: it leaves the heap. *)
Definition free (p : ptr) (h : list (ptr * ServiceFactory))
  : list (ptr * ServiceFactory) :=
  filter (fun q => negb (Nat.eqb (fst q) p)) h.

(** [ServiceConnector::~ServiceConnector()]: every factory of the map is
    deleted, in the order of the map, and the map is cleared. *)
Definition destructor (w : World) : list Call * World :=
  let c := connector w in
  (map (fun kv => Delete (snd kv)) (url_to_service_factory_ c),
   {| connector := {| default_loader_ := default_loader_ c;
                      url_to_loader_ := url_to_loader_ c;
                      url_to_service_factory_ := [] |};
      heap := fold_left (fun h kv => free (snd kv) h)
                (url_to_service_factory_ c) (heap w);
      next_ptr := next_ptr w; next_handle := next_handle w |}).

(** The loads of a URL, and the connections accepted, in a log. *)
Fixpoint loads_of (url : GURL) (log : list Call) : nat :=
  match log with
  | [] => 0%nat
  | Load _ u _ :: log' =>
      if String.eqb u url then S (loads_of url log') else loads_of url log'
  | _ :: log' => loads_of url log'
  end.

Fixpoint accepted (log : list Call) : list handle :=
  match log with
  | [] => []
  | AcceptConnection _ h :: log' => h :: accepted log'
  | _ :: log' => accepted log'
  end.

(** What a call returned, if it did. *)
Definition answer {A : Type} (r : list Call * Result A) : option A :=
  match snd r with
  | Returned a _ => Some a
  | _ => None
  end.

Definition has_key {V : Type} (k : GURL) (m : list (GURL * V)) : bool :=
  match find k m with Some _ => true | None => false end.

(** Every factory on the heap is in the map, and every address in use is
    below the next free one: the states that a connector goes through. *)
Definition well_formed (w : World) : Prop :=
  (forall p, In p (map fst (heap w)) ->
             In p (map snd (url_to_service_factory_ (connector w)))) /\
  (forall p, In p (map snd (url_to_service_factory_ (connector w))) ->
             (p < next_ptr w)%nat) /\
  NoDup (map snd (url_to_service_factory_ (connector w))).

(** A world with a fresh connector, an empty heap, and free addresses and
    handles from 1 on. *)
Definition fresh_world : World :=
  {| connector := empty_connector; heap := [];
     next_ptr := 1%nat; next_handle := 1%nat |}.

End Connector.

(** ** Vocabulary of the specification *)

(** An event is [above n] when it does not belong to a loop at level [n] or
    below. *)
Definition above (n : Z) (ev : Event) : Prop :=
  match ev with
  | EvStep l _ | Ev_uv_timer_start l _
  | Ev_uv_idle_stop l | Ev_uv_timer_stop l => n < l
  | _ => True
  end.

(** Every timer is armed with the conversion of a strictly positive delay. *)
Definition timer_ok (build : Build) (ev : Event) : Prop :=
  match ev with
  | Ev_uv_timer_start _ ms => exists d, 0 < d /\ ms = InMilliseconds build d
  | _ => True
  end.

Definition evP (build : Build) (n : Z) (ev : Event) : Prop :=
  above n ev /\ timer_ok build ev.

(** The pump is at nesting level [n] and its outermost handle is [w]. *)
Definition at_level (w : ptr) (n : Z) (s : State) : Prop :=
  nesting_level_ (pump s) = n /\ wakeup_event_ (pump s) = w.

(** Weakest preconditions with an invariant on the log: every event that
    [m] logs from [s] satisfies [Pev] (also when [m] does not return), and
    if [m] returns, [Q] holds of its result. *)
Definition wp {A} (Pev : Event -> Prop) (m : M A) (Q : A -> State -> Prop)
    (s : State) : Prop :=
  Forall Pev (fst (m s)) /\
  forall a s', snd (m s) = Done (a, s') -> Q a s'.




(** The closed form of what [Run] does before and after its loop, entered
    from state [s] and left from state [s1]. *)
Definition nested (s : State) : bool := nesting_level_ (pump s) + 1 >? 1.

Definition own_loop (s : State) : uv_loop :=
  if nested s then uv_loop_at (brk s) else uv_default_loop.

Definition entered (s : State) : State :=
  let p := set_nesting_level (nesting_level_ (pump s) + 1) (pump s) in
  if nested s
  then {| pump := set_wakeup_event_ref (S (brk s)) p; brk := S (S (brk s)) |}
  else {| pump := p; brk := brk s |}.

Definition prologue_log (s : State) : list Event :=
  (if nested s
   then [Ev_uv_loop_new (brk s); Ev_new_async (S (brk s));
         Ev_uv_async_init (uv_loop_at (brk s)) (S (brk s))]
   else []) ++
  [Ev_uv_idle_init (own_loop s); Ev_uv_timer_init (own_loop s)].

Definition epilogue_log (loop : uv_loop) (s1 : State) : list Event :=
  if nesting_level_ (pump s1) >? 1
  then [Ev_uv_loop_delete loop; Ev_delete_async (wakeup_event_ref_ (pump s1))]
  else [].

Definition returned (s1 : State) : State :=
  let p := if nesting_level_ (pump s1) >? 1
           then set_wakeup_event_ref (wakeup_event_ (pump s1)) (pump s1)
           else pump s1 in
  {| pump := set_nesting_level (nesting_level_ p - 1)
               (set_keep_running true p);
     brk := brk s1 |}.

(** All the steps in a log, of every level. *)
Fixpoint all_steps (evs : list Event) : list (Z * Step) :=
  match evs with
  | [] => []
  | EvStep l s :: evs' => (l, s) :: all_steps evs'
  | _ :: evs' => all_steps evs'
  end.

(** [returns m s a s']: run from state [s], [m] returns [a] and leaves the
    machine in state [s']. *)
Definition returns {A} (m : M A) (s : State) (a : A) (s' : State) : Prop :=
  snd (m s) = Done (a, s').

(** ** Further vocabulary: resources and return conditions *)

(** How many times a log makes, and deletes, the loop at address [l]. *)
Fixpoint loops_made (l : ptr) (evs : list Event) : nat :=
  match evs with
  | [] => 0%nat
  | Ev_uv_loop_new l' :: evs' =>
      if Nat.eqb l' l then S (loops_made l evs') else loops_made l evs'
  | _ :: evs' => loops_made l evs'
  end.

Fixpoint loops_deleted (l : ptr) (evs : list Event) : nat :=
  match evs with
  | [] => 0%nat
  | Ev_uv_loop_delete (uv_loop_at l') :: evs' =>
      if Nat.eqb l' l then S (loops_deleted l evs') else loops_deleted l evs'
  | _ :: evs' => loops_deleted l evs'
  end.

(** How many times a log deletes [uv_default_loop()]. *)
Fixpoint default_loop_deleted (evs : list Event) : nat :=
  match evs with
  | [] => 0%nat
  | Ev_uv_loop_delete uv_default_loop :: evs' => S (default_loop_deleted evs')
  | _ :: evs' => default_loop_deleted evs'
  end.

(** How many timers a log arms, and how many times it stops the timer and
    the idle handle. *)
Fixpoint timers_started (evs : list Event) : nat :=
  match evs with
  | [] => 0%nat
  | Ev_uv_timer_start _ _ :: evs' => S (timers_started evs')
  | _ :: evs' => timers_started evs'
  end.

Fixpoint timers_stopped (evs : list Event) : nat :=
  match evs with
  | [] => 0%nat
  | Ev_uv_timer_stop _ :: evs' => S (timers_stopped evs')
  | _ :: evs' => timers_stopped evs'
  end.

Fixpoint idles_stopped (evs : list Event) : nat :=
  match evs with
  | [] => 0%nat
  | Ev_uv_idle_stop _ :: evs' => S (idles_stopped evs')
  | _ :: evs' => idles_stopped evs'
  end.

(** The timeouts of the timers armed by the loop at level [lvl]. *)
Fixpoint timers_at (lvl : Z) (evs : list Event) : list Z :=
  match evs with
  | [] => []
  | Ev_uv_timer_start l ms :: evs' =>
      if l =? lvl then ms :: timers_at lvl evs' else timers_at lvl evs'
  | _ :: evs' => timers_at lvl evs'
  end.

(** [post m R]: whenever [m] returns, [R] relates the state it was run
    from, the events it logged and the state it left. *)
Definition post {A} (m : M A) (R : State -> list Event -> State -> Prop)
    : Prop :=
  forall s evs a s', m s = (evs, Done (a, s')) -> R s evs s'.

(** The relations that the generic argument on returning runs is applied
    to. *)
Definition loops_balanced (_ : State) (evs : list Event) (_ : State) : Prop :=
  (forall l, loops_made l evs = loops_deleted l evs) /\
  default_loop_deleted evs = 0%nat.

Definition timers_balanced (_ : State) (evs : list Event) (_ : State)
    : Prop :=
  timers_started evs = timers_stopped evs /\
  timers_started evs = idles_stopped evs.

Definition quit_or_kept (s : State) (evs : list Event) (s' : State) : Prop :=
  In Ev_Quit evs \/
  (keep_running_ (pump s) = true -> keep_running_ (pump s') = true).

(** ** Further vocabulary: the [uv_async_t] handles *)

(** Whether the handle [h] is among the handles [live]. *)
Definition alive (h : ptr) (live : list ptr) : bool :=
  existsb (Nat.eqb h) live.

(** The [uv_async_t] handles alive after a log, from those alive before it:
    [new uv_async_t] adds a handle and [delete] takes one away; [None]
    when the log deletes, initialises or signals a handle that is not alive
    then (a double free or a use after free). *)
Fixpoint async_handles (live : list ptr) (evs : list Event)
    : option (list ptr) :=
  match evs with
  | [] => Some live
  | Ev_new_async h :: evs' => async_handles (h :: live) evs'
  | Ev_delete_async h :: evs' =>
      if alive h live
      then async_handles (filter (fun h' => negb (Nat.eqb h h')) live) evs'
      else None
  | Ev_uv_async_init _ h :: evs' =>
      if alive h live then async_handles live evs' else None
  | Ev_uv_async_send h :: evs' =>
      if alive h live then async_handles live evs' else None
  | _ :: evs' => async_handles live evs'
  end.

(** No step of the log is at a nesting level above [m]. *)
Definition depth_at_most (m : Z) (evs : list Event) : bool :=
  forallb (fun ls => fst ls <=? m) (all_steps evs).

(** The handles that a pump whose own handle is [w] has alive: [w], and
    the active handle where a nested loop has made its own. *)
Definition handles_in_use (w : ptr) (s : State) : list ptr :=
  if Nat.eqb (wakeup_event_ref_ (pump s)) w then [w]
  else [wakeup_event_ref_ (pump s); w].

(** What a piece of a run that nests at most one loop in the outermost one
    keeps of a pump whose own handle is [w], allocated earlier, and whose
    active handle is [w] outside of the nested loop and the handle of the
    nested loop inside of it: the handles alive, with no handle deleted or
    signalled that is not alive, the active handle and the nesting
    level. *)
Definition keeps_handles (w : ptr) (s : State) (evs : list Event)
    (s' : State) : Prop :=
  depth_at_most 2 evs = true ->
  wakeup_event_ (pump s) = w ->
  (w < brk s)%nat ->
  (wakeup_event_ref_ (pump s) < brk s)%nat ->
  0 <= nesting_level_ (pump s) <= 2 ->
  (nesting_level_ (pump s) <= 1 -> wakeup_event_ref_ (pump s) = w) ->
  (nesting_level_ (pump s) = 2 -> wakeup_event_ref_ (pump s) <> w) ->
  async_handles (handles_in_use w s) evs = Some (handles_in_use w s) /\
  wakeup_event_ (pump s') = w /\
  (brk s <= brk s')%nat /\
  wakeup_event_ref_ (pump s') = wakeup_event_ref_ (pump s) /\
  nesting_level_ (pump s') = nesting_level_ (pump s).

(** ** Scenarios *)

Module Scenario.

(** The outside world of the scenarios is a counter: which nested level
    of the script is being played. *)
Definition idle_node : Node nat :=
  {| g_env := fun _ => false;
     CallTickCallback := fun e => Return e;
     uv_run := fun _ _ e => Return e;
     Now := fun e => (1000, e) |}.

(** A delegate that quits in its first [DoWork]. *)
Definition quit_at_once : Delegate nat :=
  {| DoWork := fun e => CallQuit (Return (false, e));
     DoDelayedWork := fun e => Return (false, e);
     DoIdleWork := fun e => Return (false, e) |}.

(** A freshly constructed pump on a machine whose first free address
    is 1. *)
Definition blank : State :=
  {| pump := {| keep_running_ := false; nesting_level_ := 0;
                delayed_work_time_ := 0;
                wakeup_event_ := NULL; wakeup_event_ref_ := NULL |};
     brk := 1%nat |}.

Definition fresh : State :=
  match snd (constructor blank) with
  | Done (_, s) => s
  | _ => blank
  end.

(** The state in which the loop of the outermost [Run] finds the pump. *)
Definition running : State := entered fresh.

(** [Quit] called on the fresh pump, outside of any [Run]. *)
Definition quit_outside : State :=
  match snd (Quit fresh) with
  | Done (_, s) => s
  | _ => fresh
  end.

(** A delegate that never has work and never quits. *)
Definition lazy : Delegate nat :=
  {| DoWork := fun e => Return (false, e);
     DoDelayedWork := fun e => Return (false, e);
     DoIdleWork := fun e => Return (false, e) |}.

(** A delegate whose [DoWork] always has work. *)
Definition busy : Delegate nat :=
  {| DoWork := fun e => Return (true, e);
     DoDelayedWork := fun e => Return (false, e);
     DoIdleWork := fun e => Return (false, e) |}.


(** A reactor whose callbacks, run by [uv_run] or by the tick callback,
    call [Quit]. *)
Definition quitting_node : Node nat :=
  {| g_env := fun _ => true;
     CallTickCallback := fun e => CallQuit (Return e);
     uv_run := fun _ _ e => CallQuit (Return e);
     Now := fun e => (1000, e) |}.

(** A delegate whose next delayed task is due at tick 1500, half a
    millisecond after the clock of the nodes above. *)
Definition due_soon : Delegate nat :=
  {| DoWork := fun e => Return (false, e);
     DoDelayedWork := fun e => StoreNextDelayedWorkTime 1500 (Return (false, e));
     DoIdleWork := fun e => Return (false, e) |}.

(** Three loops inside one another.  The world counts the loops entered:
    [DoWork] of the first enters the second and quits when it is back;
    [DoWork] of the second enters the third and, when it is back, calls
    [ScheduleWork] and quits; [DoWork] of the third quits. *)
Definition three_levels : Delegate nat :=
  {| DoWork := fun e =>
       match e with
       | O => CallRun 1%nat (fun e' => CallQuit (Return (true, e')))
       | S O => CallRun 2%nat (fun e' =>
                  CallScheduleWork (CallQuit (Return (true, e'))))
       | _ => CallQuit (Return (true, e))
       end;
     DoDelayedWork := fun e => Return (false, e);
     DoIdleWork := fun e => Return (false, e) |}.

(** Two loops: [DoWork] of the first enters the second and quits when it
    is back; the second quits. *)
Definition two_levels : Delegate nat :=
  {| DoWork := fun e =>
       match e with
       | O => CallRun 1%nat (fun e' =>
                CallScheduleWork (CallQuit (Return (true, e'))))
       | _ => CallQuit (Return (true, e))
       end;
     DoDelayedWork := fun e => Return (false, e);
     DoIdleWork := fun e => Return (false, e) |}.

(** The fresh pump with a deadline already behind the clock. *)
Definition overdue : State :=
  match snd (ScheduleDelayedWork 500 running) with
  | Done (_, s) => s
  | _ => running
  end.

End Scenario.

Module Sample.

(** A delegate whose first [DoWork] calls [Quit] and then enters a nested
    loop; [DoWork] in the nested loop quits. *)
Definition quit_then_nest : Delegate nat :=
  {| DoWork := fun e =>
       match e with
       | O => CallQuit (CallRun 1%nat (fun e2 => Return (true, e2)))
       | _ => CallQuit (Return (true, e))
       end;
     DoDelayedWork := fun e => Return (false, e);
     DoIdleWork := fun e => Return (false, e) |}.



End Sample.

Module Shell.

Import String.
Local Open Scope string_scope.

(** A connector with a loader at address 7 for one URL and no default
    loader. *)
Definition one_loader : Connector.World :=
  {| Connector.connector :=
       {| Connector.default_loader_ := NULL;
          Connector.url_to_loader_ := [("mojo:echo", 7%nat)];
          Connector.url_to_service_factory_ := [] |};
     Connector.heap := [];
     Connector.next_ptr := 1%nat;
     Connector.next_handle := 1%nat |}.

Definition echo : Connector.GURL := "mojo:echo".
Definition other : Connector.GURL := "mojo:other".

End Shell.

(** ** Basic facts about logs and the monad *)

Lemma steps_at_app (lvl : Z) (a b : list Event) :
  steps_at lvl (a ++ b) = steps_at lvl a ++ steps_at lvl b.
Proof.
  induction a as [|ev a IH]; simpl; [reflexivity|].
  destruct ev; auto.
  destruct (lvl0 =? lvl); simpl; now rewrite IH.
Qed.

Lemma above_mono (n m : Z) (ev : Event) : n <= m -> above m ev -> above n ev.
Proof. destruct ev; simpl; lia. Qed.

Lemma evP_mono build (n m : Z) (ev : Event) :
  n <= m -> evP build m ev -> evP build n ev.
Proof. intros H [H1 H2]; split; [eapply above_mono; eauto|assumption]. Qed.

Lemma steps_at_above (n : Z) (evs : list Event) :
  Forall (above n) evs -> steps_at n evs = [].
Proof.
  induction 1 as [|ev evs H _ IH]; simpl; [reflexivity|].
  destruct ev; auto. simpl in H.
  destruct (Z.eqb_spec lvl n); [lia|assumption].
Qed.

Lemma wp_bind {A B} Pev (m : M A) (f : A -> M B) Q s :
  wp Pev m (fun a s' => wp Pev (f a) Q s') s -> wp Pev (bind m f) Q s.
Proof.
  intros [Hev Hpost]. unfold wp, bind.
  destruct (m s) as [ev [[a s1]| |]]; simpl in *;
    try (split; [assumption|discriminate]).
  destruct (Hpost a s1 eq_refl) as [Hev' Hpost'].
  split; [apply Forall_app; auto|assumption].
Qed.

Lemma wp_conseq {A} (Pev Pev' : Event -> Prop) (m : M A)
    (Q Q' : A -> State -> Prop) s :
  wp Pev m Q s ->
  (forall ev, Pev ev -> Pev' ev) ->
  (forall a s', Q a s' -> Q' a s') ->
  wp Pev' m Q' s.
Proof.
  intros [H1 H2] Hev HQ. split; [eapply Forall_impl; eauto|eauto].
Qed.

Lemma wp_ret {A} Pev (a : A) (Q : A -> State -> Prop) s :
  Q a s -> wp Pev (ret a) Q s.
Proof. intros H; split; [constructor|]. intros a' s' [= <- <-]; auto. Qed.

Lemma wp_get {A} Pev (f : MessagePumpUV -> A) (Q : A -> State -> Prop) s :
  Q (f (pump s)) s -> wp Pev (get f) Q s.
Proof. intros H; split; [constructor|]. intros a' s' [= <- <-]; auto. Qed.

Lemma wp_update Pev f (Q : unit -> State -> Prop) s :
  Q tt {| pump := f (pump s); brk := brk s |} -> wp Pev (update f) Q s.
Proof. intros H; split; [constructor|]. intros a' s' [= <- <-]; auto. Qed.

Lemma wp_alloc Pev (Q : ptr -> State -> Prop) s :
  Q (brk s) {| pump := pump s; brk := S (brk s) |} -> wp Pev alloc Q s.
Proof. intros H; split; [constructor|]. intros a' s' [= <- <-]; auto. Qed.

Lemma wp_emit (Pev : Event -> Prop) ev (Q : unit -> State -> Prop) s :
  Pev ev -> Q tt s -> wp Pev (emit ev) Q s.
Proof.
  intros He H; split; [repeat constructor; assumption|].
  intros a' s' [= <- <-]; auto.
Qed.

Lemma wp_abort {A} Pev (Q : A -> State -> Prop) s : wp Pev abort Q s.
Proof. split; [constructor|discriminate]. Qed.

Lemma wp_out_of_fuel {A} Pev (Q : A -> State -> Prop) s :
  wp Pev out_of_fuel Q s.
Proof. split; [constructor|discriminate]. Qed.

Ltac wp_step :=
  first
    [ apply wp_bind | apply wp_ret | apply wp_get | apply wp_update
    | apply wp_alloc | apply wp_abort | apply wp_out_of_fuel ];
  cbv beta.

(** ** The invariant of the loop

    A callback run while the pump is at nesting level [n] only adds events
    of deeper levels to the log and gives the pump back at level [n]; every
    timer in the log was armed from a strictly positive delay. *)

Section Invariant.

Variable E : Type.
Variable build : Build.
Variable node : Node E.
Variable delegate : Delegate E.
Variable w : ptr.

Lemma exec_inv (run : E -> M E) n :
  (forall e s, at_level w n s ->
     wp (evP build n) (run e) (fun _ => at_level w n) s) ->
  forall A (c : Callback E A) s, at_level w n s ->
    wp (evP build n) (exec run c) (fun _ => at_level w n) s.
Proof.
  intros Hrun A c.
  induction c as [a|k IH|k IH|t k IH|k IH|t k IH|e k IH];
    intros s Hs; simpl.
  - wp_step. assumption.
  - unfold Quit. repeat wp_step.
    apply wp_emit; [split; exact I|]. repeat wp_step. apply IH. exact Hs.
  - unfold ScheduleWork. repeat wp_step.
    apply wp_emit; [split; exact I|]. apply IH. exact Hs.
  - unfold ScheduleDelayedWork. repeat wp_step. apply IH. exact Hs.
  - repeat wp_step. apply IH. exact Hs.
  - repeat wp_step. apply IH. exact Hs.
  - wp_step. eapply wp_conseq; [apply Hrun; exact Hs|auto|].
    cbv beta. intros e' s' Hs'. apply IH. exact Hs'.
Qed.

Lemma step_inv {A} (st : Step) (m : M A) n Q s :
  at_level w n s ->
  wp (evP build n) m Q s ->
  wp (evP build (n - 1)) (step st m) Q s.
Proof.
  intros Hs Hm. unfold step. repeat wp_step.
  apply wp_emit.
  - split; [simpl; unfold at_level in Hs; lia|exact I].
  - eapply wp_conseq; [exact Hm| |auto].
    intros ev; apply evP_mono; lia.
Qed.

Section Body.

Variable run : E -> M E.
Variable n : Z.
Hypothesis Hrun : forall e s, at_level w n s ->
  wp (evP build n) (run e) (fun _ => at_level w n) s.

Lemma call_inv {A} (st : Step) (c : Callback E A) s :
  at_level w n s ->
  wp (evP build (n - 1)) (step st (exec run c)) (fun _ => at_level w n) s.
Proof.
  intros Hs. apply step_inv; [exact Hs|]. apply exec_inv; assumption.
Qed.

Lemma tick_inv e s :
  at_level w n s ->
  wp (evP build (n - 1)) (tick node run e) (fun _ => at_level w n) s.
Proof.
  intros Hs. unfold tick. destruct (g_env node e).
  - apply call_inv; exact Hs.
  - wp_step. exact Hs.
Qed.

Lemma wait_inv loop e s :
  at_level w n s ->
  wp (evP build (n - 1)) (wait build node run loop e)
     (fun _ => at_level w n) s.
Proof.
  intros Hs. unfold wait. repeat wp_step.
  destruct (Time.is_null _); [apply call_inv; exact Hs|].
  destruct (Now node e) as [now e1].
  destruct (Time.gt _ _) eqn:Hgt.
  - repeat wp_step. apply wp_emit.
    { split; [simpl; unfold at_level in Hs; lia|]. simpl.
      eexists; split; [|reflexivity].
      unfold Time.gt, Time.zero in Hgt. lia. }
    wp_step. eapply wp_conseq; [apply call_inv; exact Hs|auto|].
    cbv beta. intros e2 s2 Hs2. repeat wp_step.
    apply wp_emit;
      [split; [simpl; unfold at_level in Hs2; lia|exact I]|].
    wp_step.
    apply wp_emit;
      [split; [simpl; unfold at_level in Hs2; lia|exact I]|].
    wp_step. exact Hs2.
  - repeat wp_step. exact Hs.
Qed.

Lemma iteration_inv loop e s :
  at_level w n s ->
  wp (evP build (n - 1)) (iteration build node delegate run loop e)
     (fun _ => at_level w n) s.
Proof.
  intros Hs. unfold iteration.
  wp_step. eapply wp_conseq; [apply call_inv; exact Hs|auto|].
  cbv beta. intros r1 s1 Hs1. repeat wp_step.
  destruct (negb _); [wp_step; exact Hs1|].
  wp_step. eapply wp_conseq; [apply call_inv; exact Hs1|auto|].
  cbv beta. intros r2 s2 Hs2. repeat wp_step.
  destruct (negb _); [wp_step; exact Hs2|].
  destruct (fst r1 || fst r2).
  { wp_step. eapply wp_conseq; [apply tick_inv; exact Hs2|auto|].
    cbv beta. intros e' s' Hs'. wp_step. exact Hs'. }
  wp_step. eapply wp_conseq; [apply call_inv; exact Hs2|auto|].
  cbv beta. intros r3 s3 Hs3. repeat wp_step.
  destruct (negb _); [wp_step; exact Hs3|].
  destruct (fst r3).
  { wp_step. eapply wp_conseq; [apply tick_inv; exact Hs3|auto|].
    cbv beta. intros e' s' Hs'. wp_step. exact Hs'. }
  wp_step. eapply wp_conseq; [apply wait_inv; exact Hs3|auto|].
  cbv beta. intros e' s' Hs'. wp_step. exact Hs'.
Qed.

End Body.

Lemma evP_log n ev :
  match ev with
  | EvStep _ _ | Ev_uv_timer_start _ _
  | Ev_uv_idle_stop _ | Ev_uv_timer_stop _ => False
  | _ => True
  end -> evP build n ev.
Proof. destruct ev; intros H; try contradiction; split; exact I. Qed.

Lemma Run_around_inv (the_loop : uv_loop -> E -> M E) n :
  (forall loop e s, at_level w (n + 1) s ->
     wp (evP build n) (the_loop loop e) (fun _ => at_level w (n + 1)) s) ->
  forall e s, at_level w n s ->
    wp (evP build n) (Run_around build the_loop e)
       (fun _ s' => at_level w n s' /\ keep_running_ (pump s') = true) s.
Proof.
  intros HL e s [Hn Hw]. unfold Run_around.
  repeat wp_step. unfold DCHECK.
  destruct (_ && _); repeat wp_step.
  cbn [pump nesting_level_ set_nesting_level].
  assert (Hgo : forall loop s0, at_level w (n + 1) s0 ->
    wp (evP build n)
      (emit (Ev_uv_idle_init loop);;;
       emit (Ev_uv_timer_init loop);;;
       e' <- the_loop loop e;;
       lvl' <- get nesting_level_;;
       (if lvl' >? 1
        then
         emit (Ev_uv_loop_delete loop);;;
         h <- get wakeup_event_ref_;;
         emit (Ev_delete_async h);;;
         h0 <- get wakeup_event_;; update (set_wakeup_event_ref h0)
        else ret tt);;;
       update (set_keep_running true);;;
       n' <- get nesting_level_;;
       update (set_nesting_level (n' - 1));;; ret e')
      (fun _ s' => at_level w n s' /\ keep_running_ (pump s') = true) s0).
  { intros loop s0 Hs0. wp_step.
    apply wp_emit; [apply evP_log; exact I|]. wp_step.
    apply wp_emit; [apply evP_log; exact I|]. wp_step.
    eapply wp_conseq; [apply HL; exact Hs0|auto|].
    cbv beta. intros e' s1 [Hn1 Hw1].
    repeat wp_step. destruct (_ >? 1).
    - wp_step. apply wp_emit; [apply evP_log; exact I|]. repeat wp_step.
      apply wp_emit; [apply evP_log; exact I|]. repeat wp_step.
      unfold at_level. simpl. repeat split; [lia|assumption].
    - repeat wp_step.
      unfold at_level. simpl. repeat split; [lia|assumption]. }
  destruct (_ >? 1).
  - repeat wp_step. apply wp_emit; [apply evP_log; exact I|].
    repeat wp_step. apply wp_emit; [apply evP_log; exact I|].
    repeat wp_step. apply wp_emit; [apply evP_log; exact I|].
    wp_step. apply Hgo. unfold at_level. simpl. split; [lia|assumption].
  - wp_step. apply Hgo. unfold at_level. simpl. split; [lia|assumption].
Qed.

Lemma main_loop_inv fuel :
  forall n loop e s, at_level w n s ->
    wp (evP build (n - 1)) (main_loop build node delegate fuel loop e)
       (fun _ => at_level w n) s.
Proof.
  induction fuel as [|f IH]; intros n loop e s Hs; simpl.
  - wp_step.
  - wp_step. eapply wp_conseq.
    + apply iteration_inv; [|exact Hs].
      intros e0 s0 Hs0.
      eapply wp_conseq;
        [apply Run_around_inv; [|exact Hs0] |auto
        |cbv beta; intros ? ? [? _]; assumption].
      intros loop1 e1 s1 Hs1.
      eapply wp_conseq; [apply IH; exact Hs1| |auto].
      intros ev; apply evP_mono; lia.
    + auto.
    + cbv beta. intros [c e'] s' Hs'. destruct c; simpl.
      * wp_step. exact Hs'.
      * apply IH. exact Hs'.
Qed.

Lemma Run_inv fuel n e s :
  at_level w n s ->
  wp (evP build n) (Run build node delegate fuel e)
     (fun _ s' => at_level w n s' /\ keep_running_ (pump s') = true) s.
Proof.
  intros Hs. unfold Run. apply Run_around_inv; [|exact Hs].
  intros loop1 e1 s1 Hs1.
  eapply wp_conseq; [apply main_loop_inv; exact Hs1| |auto].
  intros ev; apply evP_mono; lia.
Qed.

(** The same, for the nested [Run]s that a callback of the loop at level
    [n] can enter. *)
Lemma nested_Run_inv fuel n e s :
  at_level w n s ->
  wp (evP build n) (Run build node delegate fuel e) (fun _ => at_level w n) s.
Proof.
  intros Hs. eapply wp_conseq; [apply Run_inv; exact Hs|auto|].
  cbv beta. intros ? ? [? _]; assumption.
Qed.

End Invariant.

(** ** Equations for running the monad *)

Lemma pair_eta {A B} (p : A * B) : (fst p, snd p) = p.
Proof. destruct p; reflexivity. Qed.

Lemma bind_done {A B} (m : M A) (k : A -> M B) s ev a s' :
  m s = (ev, Done (a, s')) ->
  bind m k s = (ev ++ fst (k a s'), snd (k a s')).
Proof. intros H. unfold bind. rewrite H. reflexivity. Qed.

Lemma bind_out_of_fuel {A B} (m : M A) (k : A -> M B) s ev :
  m s = (ev, OutOfFuel) -> bind m k s = (ev, OutOfFuel).
Proof. intros H. unfold bind. rewrite H. reflexivity. Qed.

Lemma bind_fatal {A B} (m : M A) (k : A -> M B) s ev :
  m s = (ev, Fatal) -> bind m k s = (ev, Fatal).
Proof. intros H. unfold bind. rewrite H. reflexivity. Qed.

Lemma bind_ret {A B} (a : A) (k : A -> M B) s : bind (ret a) k s = k a s.
Proof. unfold bind, ret. simpl. apply pair_eta. Qed.

Lemma bind_get {A B} (f : MessagePumpUV -> A) (k : A -> M B) s :
  bind (get f) k s = k (f (pump s)) s.
Proof. unfold bind, get. simpl. apply pair_eta. Qed.

Lemma bind_update {B} f (k : unit -> M B) s :
  bind (update f) k s = k tt {| pump := f (pump s); brk := brk s |}.
Proof. unfold bind, update. simpl. apply pair_eta. Qed.

Lemma bind_alloc {B} (k : ptr -> M B) s :
  bind alloc k s = k (brk s) {| pump := pump s; brk := S (brk s) |}.
Proof. unfold bind, alloc. simpl. apply pair_eta. Qed.

Lemma bind_emit {B} ev (k : unit -> M B) s :
  bind (emit ev) k s = (ev :: fst (k tt s), snd (k tt s)).
Proof. reflexivity. Qed.

Lemma bind_bind {A B C} (m : M A) (f : A -> M B) (g : B -> M C) s :
  bind (bind m f) g s = bind m (fun a => bind (f a) g) s.
Proof.
  unfold bind. destruct (m s) as [ev [[a s1]| |]]; simpl; try reflexivity.
  destruct (f a s1) as [ev1 [[b s2]| |]]; simpl; try reflexivity.
  now rewrite app_assoc.
Qed.

Lemma step_eq {A} (st : Step) (m : M A) s :
  step st m s = (EvStep (nesting_level_ (pump s)) st :: fst (m s), snd (m s)).
Proof. unfold step. rewrite bind_get, bind_emit. reflexivity. Qed.

Lemma bind_step {A B} (st : Step) (m : M A) (k : A -> M B) s :
  bind (step st m) k s =
  (EvStep (nesting_level_ (pump s)) st :: fst (bind m k s), snd (bind m k s)).
Proof.
  unfold bind at 1. rewrite step_eq. cbn [fst snd]. unfold bind.
  destruct (m s) as [ev [[a s1]| |]]; reflexivity.
Qed.

Section Shape.

Variable E : Type.
Variable build : Build.
Variable node : Node E.
Variable delegate : Delegate E.

Lemma Run_around_eq (the_loop : uv_loop -> E -> M E) e s :
  Run_around build the_loop e s =
  if DCHECK_IS_ON build && negb (keep_running_ (pump s)) then ([], Fatal)
  else
    match the_loop (own_loop s) e (entered s) with
    | (ev, Done (e', s1)) =>
        (prologue_log s ++ ev ++ epilogue_log (own_loop s) s1,
         Done (e', returned s1))
    | (ev, OutOfFuel) => (prologue_log s ++ ev, OutOfFuel)
    | (ev, Fatal) => (prologue_log s ++ ev, Fatal)
    end.
Proof.
  unfold Run_around. rewrite bind_get, bind_update, bind_get.
  cbn [pump keep_running_ set_nesting_level]. unfold DCHECK.
  destruct (DCHECK_IS_ON build && negb (keep_running_ (pump s)));
    [reflexivity|].
  rewrite bind_ret, bind_get. cbn [pump nesting_level_ set_nesting_level].
  unfold prologue_log, own_loop, entered, nested.
  destruct (nesting_level_ (pump s) + 1 >? 1).
  - unfold bind, alloc, emit, update, get, ret. cbn.
    destruct (the_loop _ _ _) as [ev [[e' s1]| |]]; cbn; try reflexivity.
    unfold epilogue_log, returned.
    destruct (nesting_level_ (pump s1) >? 1); cbn;
      rewrite ?app_nil_r; reflexivity.
  - unfold bind, alloc, emit, update, get, ret. cbn.
    destruct (the_loop _ _ _) as [ev [[e' s1]| |]]; cbn; try reflexivity.
    unfold epilogue_log, returned.
    destruct (nesting_level_ (pump s1) >? 1); cbn;
      rewrite ?app_nil_r; reflexivity.
Qed.

End Shape.

Lemma all_steps_app (a b : list Event) :
  all_steps (a ++ b) = all_steps a ++ all_steps b.
Proof.
  induction a as [|ev a IH]; simpl; [reflexivity|].
  destruct ev; simpl; auto. now rewrite IH.
Qed.

Lemma all_steps_prologue (s : State) : all_steps (prologue_log s) = [].
Proof. unfold prologue_log. destruct (nested s); reflexivity. Qed.

Lemma nesting_entered (s : State) :
  nesting_level_ (pump (entered s)) = nesting_level_ (pump s) + 1.
Proof. unfold entered. destruct (nested s); reflexivity. Qed.

Lemma wakeup_entered (s : State) :
  wakeup_event_ (pump (entered s)) = wakeup_event_ (pump s).
Proof. unfold entered. destruct (nested s); reflexivity. Qed.

(** ** The lifecycle of a [Run] invocation *)

Section Lifecycle.

Variable E : Type.
Variable build : Build.
Variable node : Node E.
Variable delegate : Delegate E.

Let RunF := Run build node delegate.
Let loopF := main_loop build node delegate.

(** What a [Run] that returns has done: its loop ran from [entered s] on
    [own_loop s] and broke in some state [s1], still at the level it was
    entered at and with the outermost handle untouched; the epilogue was
    run from there. *)
Lemma Run_returns_inv fuel e s evs e' s' :
  RunF fuel e s = (evs, Done (e', s')) ->
  exists ev s1,
    loopF fuel (own_loop s) e (entered s) = (ev, Done (e', s1)) /\
    nesting_level_ (pump s1) = nesting_level_ (pump s) + 1 /\
    wakeup_event_ (pump s1) = wakeup_event_ (pump s) /\
    evs = prologue_log s ++ ev ++ epilogue_log (own_loop s) s1 /\
    s' = returned s1.
Proof.
  unfold RunF, loopF, Run. rewrite Run_around_eq.
  destruct (DCHECK_IS_ON build && negb (keep_running_ (pump s)));
    [discriminate|].
  pose proof (main_loop_inv E build node delegate (wakeup_event_ (pump s))
                fuel (nesting_level_ (pump s) + 1) (own_loop s) e
                (entered s)
                (conj (nesting_entered s) (wakeup_entered s)))
    as [_ Hpost].
  destruct (main_loop _ _ _ _ _ _ _) as [ev [[e1 s1]| |]];
    try discriminate.
  intros [= <- <- <-]. exists ev, s1.
  destruct (Hpost e1 s1 eq_refl) as [Hn Hw].
  repeat split; try reflexivity; assumption.
Qed.

Lemma main_loop_head f loop e s :
  exists rest,
    fst (loopF (S f) loop e s) =
    EvStep (nesting_level_ (pump s)) Immediate :: rest.
Proof.
  unfold loopF. simpl. unfold iteration.
  rewrite bind_bind, bind_step. cbn [fst]. eexists; reflexivity.
Qed.

End Lifecycle.


(** ** One iteration of the loop *)

Section Iteration.

Variable E : Type.
Variable build : Build.
Variable node : Node E.
Variable delegate : Delegate E.
Variable fuel : nat.

Local Abbreviation run := (Run build node delegate fuel).
Local Abbreviation iter := (iteration build node delegate run).

(** A callback of the loop at level [n] logs nothing at that level and
    gives the pump back at that level. *)
Lemma exec_out {A} (c : Callback E A) s n :
  nesting_level_ (pump s) = n ->
  steps_at n (fst (exec run c s)) = [] /\
  forall a s', snd (exec run c s) = Done (a, s') ->
    nesting_level_ (pump s') = n.
Proof.
  intros Hs.
  destruct (exec_inv E build (wakeup_event_ (pump s)) run n
              (fun e0 s0 =>
                 nested_Run_inv E build node delegate _ fuel _ e0 s0)
              A c s (conj Hs eq_refl)) as [Hev Hpost].
  split; [|intros a s' H; exact (proj1 (Hpost a s' H))].
  apply steps_at_above. eapply Forall_impl; [|exact Hev].
  intros ev [H _]; exact H.
Qed.

Lemma exec_returned {A} (c : Callback E A) s n ev a s' :
  nesting_level_ (pump s) = n ->
  exec run c s = (ev, Done (a, s')) ->
  steps_at n ev = [] /\ nesting_level_ (pump s') = n.
Proof.
  intros Hs H. destruct (exec_out c s n Hs) as [Hev Hl].
  rewrite H in Hev, Hl. split; [exact Hev|]. apply (Hl a s' eq_refl).
Qed.

Lemma steps_at_own n st evs :
  steps_at n (EvStep n st :: evs) = st :: steps_at n evs.
Proof. simpl. now rewrite Z.eqb_refl. Qed.

Ltac norm :=
  repeat first
    [ rewrite bind_bind | rewrite bind_get | rewrite bind_ret
    | rewrite bind_update | rewrite bind_emit ];
  cbn [fst snd].

(** [start]: the loop logs its next step.  [walk H]: the callback of that
    step returns (equation [H]), or does not. *)
Ltac start :=
  match goal with
  | |- context [bind (step ?st ?m) ?k ?s] =>
      rewrite (bind_step st m k s);
      match goal with
      | Hs : nesting_level_ (pump s) = _ |- _ => rewrite Hs
      end;
      cbn [fst snd]; rewrite ?steps_at_own
  | |- context [step ?st ?m ?s] =>
      rewrite (step_eq st m s);
      match goal with
      | Hs : nesting_level_ (pump s) = _ |- _ => rewrite Hs
      end;
      cbn [fst snd]; rewrite ?steps_at_own
  end.

Ltac walk H :=
  match goal with
  | Hs : nesting_level_ (pump ?s) = ?n
    |- context [bind (exec ?r ?c) ?k ?s] =>
      let ev := fresh "ev" in
      let a := fresh "r" in
      let s' := fresh "s" in
      let Hev := fresh "Hev" in
      let Hl := fresh "Hl" in
      destruct (exec_out c s n Hs) as [Hev Hl];
      destruct (exec r c s) as [ev [[a s']| |]] eqn:H;
      cbn [fst snd] in Hev, Hl;
      [ specialize (Hl _ _ eq_refl);
        rewrite (bind_done _ _ _ _ _ _ H)
      | clear Hl; rewrite (bind_out_of_fuel _ _ _ _ H)
      | clear Hl; rewrite (bind_fatal _ _ _ _ H) ];
      cbn [fst snd]; rewrite ?steps_at_app, ?Hev; cbn [app]
  end.

(** The end of an iteration that did work: the tick callback, if node
    has an environment, and [continue]. *)
Lemma tick_course e s n :
  nesting_level_ (pump s) = n ->
  steps_at n (fst ((e' <- tick node run e ;; ret (Continue, e')) s)) =
    (if g_env node e then [Tick] else []) /\
  forall c e' s',
    snd ((e' <- tick node run e ;; ret (Continue, e')) s)
      = Done ((c, e'), s') ->
    c = Continue /\ nesting_level_ (pump s') = n.
Proof.
  intros Hs. unfold tick. destruct (g_env node e).
  - start. walk H; (split; [reflexivity|]); try discriminate.
    intros c e' s' [= <- _ <-]. auto.
  - rewrite bind_ret. split; [reflexivity|].
    intros c e' s' [= <- _ <-]. auto.
Qed.

(** The end of an iteration that did no work: lines 103-118. *)
Lemma wait_course loop e s n :
  nesting_level_ (pump s) = n ->
  steps_at n (fst ((e' <- wait build node run loop e ;;
                    ret (Continue, e')) s)) =
    (if Time.is_null (delayed_work_time_ (pump s)) then [Poll]
     else if Time.gt (Time.minus (delayed_work_time_ (pump s))
                        (fst (Now node e))) Time.zero
          then [Poll] else []) /\
  forall c e' s',
    snd ((e' <- wait build node run loop e ;; ret (Continue, e')) s)
      = Done ((c, e'), s') ->
    c = Continue /\ nesting_level_ (pump s') = n.
Proof.
  intros Hs. unfold wait. rewrite bind_bind, bind_get.
  destruct (Time.is_null _).
  - start. walk H; (split; [reflexivity|]); try discriminate.
    intros c e' s' [= <- _ <-]. auto.
  - destruct (Now node e) as [now e1]. cbn [fst].
    destruct (Time.gt _ _).
    + norm. cbn [steps_at]. start. walk H;
        (split; [reflexivity|]); try discriminate.
      norm. cbn [snd ret].
      intros c e' s' [= <- _ <-]. auto.
    + norm. split; [reflexivity|].
      intros c e' s' [= <- _ <-]. auto.
Qed.


(** *** The course of an iteration, call by call *)

Section Course.

Variables (loop : uv_loop) (e : E) (s : State) (n : Z).
Hypothesis Hs : nesting_level_ (pump s) = n.

Variables (ev1 : list Event) (r1 : bool * E) (s1 : State).
Hypothesis H1 : exec run (DoWork delegate e) s = (ev1, Done (r1, s1)).

Lemma level_after_DoWork : nesting_level_ (pump s1) = n.
Proof.
  exact (proj2 (exec_returned _ _ _ _ _ _ Hs H1)).
Qed.

Lemma break_after_DoWork :
  keep_running_ (pump s1) = false ->
  iter loop e s = (EvStep n Immediate :: ev1, Done ((Break, snd r1), s1)).
Proof.
  intros K1. unfold iteration. rewrite bind_step, Hs.
  rewrite (bind_done _ _ _ _ _ _ H1). cbn [fst snd].
  rewrite bind_get, K1. cbn. now rewrite app_nil_r.
Qed.

Hypothesis K1 : keep_running_ (pump s1) = true.

Variables (ev2 : list Event) (r2 : bool * E) (s2 : State).
Hypothesis H2 :
  exec run (DoDelayedWork delegate (snd r1)) s1 = (ev2, Done (r2, s2)).

Lemma level_after_DoDelayedWork : nesting_level_ (pump s2) = n.
Proof.
  exact (proj2 (exec_returned _ _ _ _ _ _ level_after_DoWork H2)).
Qed.

Lemma break_after_DoDelayedWork :
  keep_running_ (pump s2) = false ->
  iter loop e s =
  (EvStep n Immediate :: ev1 ++ EvStep n Delayed :: ev2,
   Done ((Break, snd r2), s2)).
Proof.
  intros K2. unfold iteration. rewrite bind_step, Hs.
  rewrite (bind_done _ _ _ _ _ _ H1). cbn [fst snd].
  rewrite bind_get, K1. cbn [negb].
  rewrite bind_step, level_after_DoWork.
  rewrite (bind_done _ _ _ _ _ _ H2). cbn [fst snd].
  rewrite bind_get, K2. cbn. now rewrite app_nil_r.
Qed.

Hypothesis K2 : keep_running_ (pump s2) = true.


Hypothesis W12 : fst r1 || fst r2 = false.

Variables (ev3 : list Event) (r3 : bool * E) (s3 : State).
Hypothesis H3 :
  exec run (DoIdleWork delegate (snd r2)) s2 = (ev3, Done (r3, s3)).

Lemma level_after_DoIdleWork : nesting_level_ (pump s3) = n.
Proof.
  exact (proj2 (exec_returned _ _ _ _ _ _ level_after_DoDelayedWork H3)).
Qed.

Lemma iter_after_DoIdleWork :
  iter loop e s =
  (EvStep n Immediate :: ev1 ++ EvStep n Delayed :: ev2 ++
     EvStep n Idle :: ev3 ++
     fst ((if negb (keep_running_ (pump s3)) then ret (Break, snd r3)
           else if fst r3
                then e' <- tick node run (snd r3) ;; ret (Continue, e')
                else e' <- wait build node run loop (snd r3) ;;
                     ret (Continue, e')) s3),
   snd ((if negb (keep_running_ (pump s3)) then ret (Break, snd r3)
         else if fst r3
              then e' <- tick node run (snd r3) ;; ret (Continue, e')
              else e' <- wait build node run loop (snd r3) ;;
                   ret (Continue, e')) s3)).
Proof.
  unfold iteration. rewrite bind_step, Hs.
  rewrite (bind_done _ _ _ _ _ _ H1). cbn [fst snd].
  rewrite bind_get, K1. cbn [negb].
  rewrite bind_step, level_after_DoWork.
  rewrite (bind_done _ _ _ _ _ _ H2). cbn [fst snd].
  rewrite bind_get, K2, W12. cbn [negb].
  rewrite bind_step, level_after_DoDelayedWork.
  rewrite (bind_done _ _ _ _ _ _ H3). cbn [fst snd].
  rewrite bind_get. reflexivity.
Qed.

Lemma break_after_DoIdleWork :
  keep_running_ (pump s3) = false ->
  iter loop e s =
  (EvStep n Immediate :: ev1 ++ EvStep n Delayed :: ev2 ++
     EvStep n Idle :: ev3,
   Done ((Break, snd r3), s3)).
Proof.
  intros K3. rewrite iter_after_DoIdleWork, K3. cbn.
  now rewrite app_nil_r.
Qed.

Hypothesis K3 : keep_running_ (pump s3) = true.


Lemma wait_after_no_work :
  fst r3 = false ->
  iter loop e s =
  (EvStep n Immediate :: ev1 ++ EvStep n Delayed :: ev2 ++
     EvStep n Idle :: ev3 ++
     fst ((e' <- wait build node run loop (snd r3) ;;
           ret (Continue, e')) s3),
   snd ((e' <- wait build node run loop (snd r3) ;;
         ret (Continue, e')) s3)).
Proof.
  intros W. rewrite iter_after_DoIdleWork, K3, W. reflexivity.
Qed.

End Course.

Lemma returns_eq {A} (m : M A) s a s' :
  returns m s a s' -> m s = (fst (m s), Done (a, s')).
Proof. unfold returns. destruct (m s); simpl; congruence. Qed.


(** An iteration whose [DoWork] returned with [keep_running_] set goes on
    to [DoDelayedWork] next. *)
Lemma DoDelayedWork_follows loop e s n r1 s1 :
  nesting_level_ (pump s) = n ->
  returns (exec run (DoWork delegate e)) s r1 s1 ->
  keep_running_ (pump s1) = true ->
  exists rest,
    steps_at n (fst (iter loop e s)) = Immediate :: Delayed :: rest.
Proof.
  intros Hs H1 K1. apply returns_eq in H1.
  destruct (exec_returned _ _ _ _ _ _ Hs H1) as [Hev1 Hl1].
  unfold iteration. start. rewrite (bind_done _ _ _ _ _ _ H1).
  cbn [fst snd]. rewrite steps_at_app, Hev1. cbn [app].
  rewrite bind_get, K1. cbn [negb]. start. eexists; reflexivity.
Qed.

(** [continue]: the loop goes on with its next iteration, whatever
    [keep_running_] is by then. *)
Lemma main_loop_continue loop e s e' s' :
  snd (iter loop e s) = Done ((Continue, e'), s') ->
  main_loop build node delegate (S fuel) loop e s =
  (fst (iter loop e s) ++ fst (main_loop build node delegate fuel loop e' s'),
   snd (main_loop build node delegate fuel loop e' s')).
Proof.
  intros H. cbn [main_loop].
  change (Run_around build (main_loop build node delegate fuel)) with run.
  rewrite (bind_done _ _ _ _ _ _ (returns_eq _ _ _ _ H)). reflexivity.
Qed.

Lemma main_loop_break loop e s e' s' :
  snd (iter loop e s) = Done ((Break, e'), s') ->
  main_loop build node delegate (S fuel) loop e s =
  (fst (iter loop e s), Done (e', s')).
Proof.
  intros H. cbn [main_loop].
  change (Run_around build (main_loop build node delegate fuel)) with run.
  rewrite (bind_done _ _ _ _ _ _ (returns_eq _ _ _ _ H)). cbn.
  now rewrite app_nil_r.
Qed.

(** An iteration that called the tick callback or [uv_run] and returned
    did not break. *)
Lemma continue_after_tick_or_poll loop e s n c e' s' :
  nesting_level_ (pump s) = n ->
  snd (iter loop e s) = Done ((c, e'), s') ->
  In Tick (steps_at n (fst (iter loop e s))) \/
  In Poll (steps_at n (fst (iter loop e s))) ->
  c = Continue.
Proof.
  assert (Hno : forall l : list Step,
            In l [[Immediate]; [Immediate; Delayed];
                  [Immediate; Delayed; Idle]] ->
            ~ (In Tick l \/ In Poll l)).
  { intros l Hl Hp. simpl in Hl.
    repeat (destruct Hl as [<- | Hl];
            [simpl in Hp; intuition discriminate|]). exact Hl. }
  intros Hs. unfold iteration. start. walk H1.
  2,3: discriminate.
  rewrite bind_get.
  destruct (keep_running_ (pump s0)) eqn:K1; cbn [negb].
  2: intros _ Hp; exfalso; revert Hp; apply Hno; simpl; auto.
  start. walk H2.
  2,3: discriminate.
  rewrite bind_get.
  destruct (keep_running_ (pump s1)) eqn:K2; cbn [negb].
  2: intros _ Hp; exfalso; revert Hp; apply Hno; simpl; auto.
  destruct (fst r || fst r0) eqn:W12.
  { intros Hc _.
    apply (proj2 (tick_course _ _ _ Hl0) c e' s' Hc). }
  start. walk H3.
  2,3: discriminate.
  rewrite bind_get.
  destruct (keep_running_ (pump s2)) eqn:K3; cbn [negb].
  2: intros _ Hp; exfalso; revert Hp; apply Hno; simpl; auto.
  destruct (fst r1) eqn:W3.
  { intros Hc _.
    apply (proj2 (tick_course _ _ _ Hl1) c e' s' Hc). }
  intros Hc _.
  apply (proj2 (wait_course _ _ _ _ Hl1) c e' s' Hc).
Qed.

End Iteration.

(** ** Waiting for work: lines 103-118 *)

Section Waiting.

Variable E : Type.
Variable build : Build.
Variable node : Node E.
Variable run : E -> M E.

Lemma wait_overdue loop e s :
  Time.is_null (delayed_work_time_ (pump s)) = false ->
  Time.minus (delayed_work_time_ (pump s)) (fst (Now node e)) <= 0 ->
  wait build node run loop e s =
  ([], Done (snd (Now node e),
             {| pump := set_delayed_work_time Time.null (pump s);
                brk := brk s |})).
Proof.
  intros Hnull Hd. unfold wait. rewrite bind_get, Hnull.
  destruct (Now node e) as [now e1]. cbn [fst snd] in *.
  assert (Hgt : Time.gt (Time.minus (delayed_work_time_ (pump s)) now)
                  Time.zero = false)
    by (unfold Time.gt, Time.zero; lia).
  rewrite Hgt, bind_update. reflexivity.
Qed.

Lemma wait_timer loop e s :
  Time.is_null (delayed_work_time_ (pump s)) = false ->
  0 < Time.minus (delayed_work_time_ (pump s)) (fst (Now node e)) ->
  exists rest,
    fst (wait build node run loop e s) =
    Ev_uv_timer_start (nesting_level_ (pump s))
      (InMilliseconds build
         (Time.minus (delayed_work_time_ (pump s)) (fst (Now node e))))
    :: EvStep (nesting_level_ (pump s)) Poll :: rest.
Proof.
  intros Hnull Hd. unfold wait. rewrite bind_get, Hnull.
  destruct (Now node e) as [now e1]. cbn [fst snd] in *.
  assert (Hgt : Time.gt (Time.minus (delayed_work_time_ (pump s)) now)
                  Time.zero = true)
    by (unfold Time.gt, Time.zero; lia).
  rewrite Hgt, bind_get, bind_emit. cbn [fst].
  rewrite bind_step. cbn [fst]. eexists; reflexivity.
Qed.

End Waiting.

(** ** The conversion to milliseconds of Chromium's base library *)

Lemma InMilliseconds_of_positive (d : Time.TimeDelta) :
  0 < d ->
  0 <= Time.InMilliseconds d /\ (Time.InMilliseconds d = 0 <-> d < 1000).
Proof.
  intros Hd. unfold Time.InMilliseconds, Time.kMicrosecondsPerMillisecond.
  split.
  - apply Z.quot_pos; lia.
  - rewrite Z.quot_small_iff by lia. lia.
Qed.

(** A conversion to whole milliseconds that does not round up sends every
    delay under one millisecond to a timeout that is not positive. *)
Lemma short_delay_has_no_positive_timeout (build : Build) :
  (forall d, 0 < d -> InMilliseconds build d * 1000 <= d) ->
  forall d, 0 < d < 1000 -> InMilliseconds build d <= 0.
Proof. intros H d Hd. specialize (H d (proj1 Hd)). lia. Qed.

(** On tick counts whose difference fits [int64], [minus] is the
    difference. *)
Lemma minus_exact (a b : Time.TimeTicks) :
  - 2 ^ 63 <= a - b < 2 ^ 63 -> Time.minus a b = a - b.
Proof.
  intros H. unfold Time.minus, Time.wrap64.
  rewrite Z.mod_small; lia.
Qed.

(** A [bind] that returns: both halves returned. *)
Lemma bind_Done_inv {A B} (m : M A) (f : A -> M B) s evs b s2 :
  bind m f s = (evs, Done (b, s2)) ->
  exists ev1 a s1 ev2,
    m s = (ev1, Done (a, s1)) /\ f a s1 = (ev2, Done (b, s2)) /\
    evs = ev1 ++ ev2.
Proof.
  unfold bind. destruct (m s) as [ev1 [[a s1]| |]]; try discriminate.
  destruct (f a s1) as [ev2 r] eqn:Hf. cbn [fst snd].
  intros [= <- ->]. exists ev1, a, s1, ev2. auto.
Qed.


(** ** Entering and leaving [Run] *)

(** C8. [Run] needs [keep_running_] to be true when it is entered: in a
    build whose DCHECKs are on, entering it with the flag false is a fatal
    assertion failure, before any loop or handle is set up and before the
    delegate is asked anything; in particular [Run] right after a [Quit]
    made outside of any loop is fatal. *)
Theorem Run_after_Quit_is_fatal
    (E : Type) (build : Build) (node : Node E) (delegate : Delegate E)
    (fuel : nat) (e : E) :
  DCHECK_IS_ON build = true ->
  (forall s, keep_running_ (pump s) = false ->
     Run build node delegate fuel e s = ([], Fatal)) /\
  (forall s, (Quit ;;; Run build node delegate fuel e) s = ([Ev_Quit], Fatal)).
Proof.
  intros Hd.
  assert (H : forall s, keep_running_ (pump s) = false ->
            Run build node delegate fuel e s = ([], Fatal)).
  { intros s Hk. unfold Run. rewrite Run_around_eq, Hd, Hk. reflexivity. }
  split; [exact H|].
  intros s. unfold Quit. rewrite bind_bind, bind_emit, bind_update.
  rewrite H; reflexivity.
Qed.

Lemma Run_after_Quit_is_fatal_witness :
  Run (chromium_build true) Scenario.idle_node Scenario.lazy 7 0%nat
      Scenario.quit_outside = ([], Fatal).
Proof.
  apply (proj1 (Run_after_Quit_is_fatal nat (chromium_build true)
                  Scenario.idle_node Scenario.lazy 7 0%nat eq_refl)).
  reflexivity.
Defined.

(** With DCHECKs compiled out the same call goes through the loop once:
    [DoWork] is called, the flag is found false and the loop breaks. *)
Example Run_after_Quit_without_DCHECK :
  Run (chromium_build false) Scenario.idle_node Scenario.lazy 7 0%nat
      Scenario.quit_outside =
  ([Ev_uv_idle_init uv_default_loop; Ev_uv_timer_init uv_default_loop;
    EvStep 1 Immediate],
   Done (0%nat, Scenario.fresh)).
Proof. vm_compute. reflexivity. Qed.

(** C9. A [Run] invocation that returns, whatever made its loop break,
    leaves [keep_running_] true and [nesting_level_] at the value it had
    before the call; so the [Quit] that ended a nested invocation is not
    seen by the loop that the nested invocation returns to. *)
Theorem Run_resets_flag_and_level
    (E : Type) (build : Build) (node : Node E) (delegate : Delegate E)
    (fuel : nat) (e : E) (s : State) evs e' s' :
  Run build node delegate fuel e s = (evs, Done (e', s')) ->
  keep_running_ (pump s') = true /\
  nesting_level_ (pump s') = nesting_level_ (pump s).
Proof.
  intros H.
  destruct (Run_inv E build node delegate (wakeup_event_ (pump s)) fuel
              (nesting_level_ (pump s)) e s (conj eq_refl eq_refl))
    as [_ Hpost].
  rewrite H in Hpost. destruct (Hpost e' s' eq_refl) as [[Hl _] Hk].
  split; assumption.
Qed.

Lemma Run_resets_flag_and_level_witness :
  exists evs e' s',
    Run (chromium_build true) Scenario.idle_node Scenario.two_levels 2 0%nat
        Scenario.fresh = (evs, Done (e', s')) /\
    keep_running_ (pump s') = true /\
    nesting_level_ (pump s') = nesting_level_ (pump Scenario.fresh).
Proof.
  do 3 eexists. split; [vm_compute; reflexivity|].
  eapply (Run_resets_flag_and_level nat (chromium_build true)
            Scenario.idle_node Scenario.two_levels 2 0%nat Scenario.fresh).
  vm_compute; reflexivity.
Defined.

(** C10. A [Run] invocation that returns has called the delegate's [DoWork]
    before anything else: after the set-up of its loop, which has no step
    and looks at no flag, the log is the immediate-work step of its own
    level followed by the events of [DoWork delegate e], run from the state
    the set-up leaves ([entered s]), and that call returned.  So the first
    step of the log, of any level, is that immediate-work step.  When the
    call leaves [keep_running_] cleared nothing but the epilogue follows:
    [Run] returns what [DoWork] handed back. *)
Theorem Run_asks_DoWork_first
    (E : Type) (build : Build) (node : Node E) (delegate : Delegate E)
    (fuel : nat) (e : E) (s : State) evs e' s' :
  Run build node delegate fuel e s = (evs, Done (e', s')) ->
  exists f ev1 r1 s1 rest,
    fuel = S f /\
    exec (Run build node delegate f) (DoWork delegate e) (entered s) =
      (ev1, Done (r1, s1)) /\
    evs = prologue_log s ++
          EvStep (nesting_level_ (pump s) + 1) Immediate :: ev1 ++ rest /\
    all_steps (prologue_log s) = [] /\
    all_steps evs =
      (nesting_level_ (pump s) + 1, Immediate) :: all_steps (ev1 ++ rest) /\
    (keep_running_ (pump s1) = false ->
     rest = epilogue_log (own_loop s) s1 /\ e' = snd r1 /\ s' = returned s1).
Proof.
  intros H.
  destruct (Run_returns_inv E build node delegate fuel e s evs e' s' H)
    as (ev & s2 & Hloop & _ & _ & -> & ->).
  destruct fuel as [|f]; [discriminate|].
  cbn [main_loop] in Hloop.
  apply bind_Done_inv in Hloop.
  destruct Hloop as (evi & [c ei] & si & ev2 & Hit & Hk & ->).
  unfold iteration in Hit. apply bind_Done_inv in Hit.
  destruct Hit as (evA & r1 & s1 & evB & HA & HB & ->).
  rewrite step_eq, nesting_entered in HA.
  change (Run_around build (main_loop build node delegate f))
    with (Run build node delegate f) in *.
  destruct (exec (Run build node delegate f) (DoWork delegate e) (entered s))
    as [ev1 o1] eqn:Hex.
  cbn [fst snd] in HA. injection HA as <- ->.
  exists f, ev1, r1, s1, (evB ++ ev2 ++ epilogue_log (own_loop s) s2).
  assert (Hlog :
    prologue_log s ++
      (((EvStep (nesting_level_ (pump s) + 1) Immediate :: ev1) ++ evB) ++ ev2)
        ++ epilogue_log (own_loop s) s2 =
    prologue_log s ++
      EvStep (nesting_level_ (pump s) + 1) Immediate ::
        ev1 ++ evB ++ ev2 ++ epilogue_log (own_loop s) s2).
  { f_equal. cbn [app]. f_equal. now rewrite <- !app_assoc. }
  split; [reflexivity|]. split; [exact Hex|]. split; [exact Hlog|].
  split; [apply all_steps_prologue|]. split.
  - rewrite Hlog, all_steps_app, all_steps_prologue. reflexivity.
  - intros K1. rewrite bind_get, K1 in HB. cbn in HB.
    injection HB as <- <- <- <-. cbn in Hk. injection Hk as <- <- <-.
    repeat split.
Qed.

Lemma Run_asks_DoWork_first_witness :
  exists f ev1 r1 s1 rest,
    1%nat = S f /\
    exec (Run (chromium_build true) Scenario.idle_node Scenario.quit_at_once f)
         (DoWork Scenario.quit_at_once 0%nat) (entered Scenario.fresh) =
      (ev1, Done (r1, s1)) /\
    [Ev_uv_idle_init uv_default_loop; Ev_uv_timer_init uv_default_loop;
     EvStep 1 Immediate; Ev_Quit] =
      prologue_log Scenario.fresh ++
      EvStep (nesting_level_ (pump Scenario.fresh) + 1) Immediate ::
        ev1 ++ rest /\
    all_steps (prologue_log Scenario.fresh) = [] /\
    all_steps
      [Ev_uv_idle_init uv_default_loop; Ev_uv_timer_init uv_default_loop;
       EvStep 1 Immediate; Ev_Quit] =
      (nesting_level_ (pump Scenario.fresh) + 1, Immediate) ::
        all_steps (ev1 ++ rest) /\
    (keep_running_ (pump s1) = false ->
     rest = epilogue_log (own_loop Scenario.fresh) s1 /\
     0%nat = snd r1 /\ Scenario.fresh = returned s1).
Proof.
  eapply (Run_asks_DoWork_first nat (chromium_build true) Scenario.idle_node
            Scenario.quit_at_once 1 0%nat Scenario.fresh).
  vm_compute; reflexivity.
Defined.

(** ** Destruction *)

(** C7, as stated, fails: the destructor runs to its end on a pump whose
    outermost [Run] is still on the stack. *)
Lemma destructor_during_Run_is_not_fatal :
  0 < nesting_level_ (pump Scenario.running) /\
  snd (destructor Scenario.running) <> Fatal.
Proof. split; [reflexivity|discriminate]. Qed.

(** C7, amended.  The destructor deletes the outermost wake-up handle and
    nulls [wakeup_event_], in every state: it looks neither at
    [nesting_level_] nor at any other field, and never fails. *)
Theorem destructor_releases_unconditionally (s : State) :
  destructor s =
  ([Ev_delete_async (wakeup_event_ (pump s))],
   Done (tt, {| pump := set_wakeup_event NULL (pump s); brk := brk s |})).
Proof. reflexivity. Qed.

(** C3, at the input on which it fails: three loops inside one another, on
    a fresh pump whose outermost handle is at address 1.  The second loop
    makes its own handle, at address 3, on its own loop, at address 2.
    When the third [Run] returns it has deleted its loop (address 4) and
    its handle (address 5), but [wakeup_event_ref_] is set to the outermost
    handle, not to the handle of the second loop that it returns to: the
    [ScheduleWork] made by the second loop right after signals handle 1, and
    the second [Run], on its way out, deletes handle 1 and never handle
    3. *)
Theorem third_level_exit_restores_outermost_signal :
  Run (chromium_build true) Scenario.idle_node Scenario.three_levels 3 0%nat
      Scenario.fresh =
  ([Ev_uv_idle_init uv_default_loop; Ev_uv_timer_init uv_default_loop;
    EvStep 1 Immediate;
    Ev_uv_loop_new 2%nat; Ev_new_async 3%nat; Ev_uv_async_init (uv_loop_at 2%nat) 3%nat;
    Ev_uv_idle_init (uv_loop_at 2%nat); Ev_uv_timer_init (uv_loop_at 2%nat);
    EvStep 2 Immediate;
    Ev_uv_loop_new 4%nat; Ev_new_async 5%nat; Ev_uv_async_init (uv_loop_at 4%nat) 5%nat;
    Ev_uv_idle_init (uv_loop_at 4%nat); Ev_uv_timer_init (uv_loop_at 4%nat);
    EvStep 3 Immediate; Ev_Quit;
    Ev_uv_loop_delete (uv_loop_at 4%nat); Ev_delete_async 5%nat;
    Ev_uv_async_send 1%nat; Ev_Quit;
    Ev_uv_loop_delete (uv_loop_at 2%nat); Ev_delete_async 1%nat;
    Ev_Quit],
   Done (2%nat,
         {| pump := {| keep_running_ := true; nesting_level_ := 0;
                       delayed_work_time_ := 0;
                       wakeup_event_ := 1%nat; wakeup_event_ref_ := 1%nat |};
            brk := 6%nat |})).
Proof. vm_compute. reflexivity. Qed.

(** What does hold of every nested [Run] that returns: the loop it made is
    the loop it deletes, the handle it deletes is the one that
    [wakeup_event_ref_] holds when its loop breaks, and [wakeup_event_ref_]
    is left equal to [wakeup_event_], the handle of the outermost level,
    which no [Run] changes.  So when the caller's handle was not the
    outermost one, as in a loop that is itself nested, the caller does not
    get its handle back. *)
Lemma nested_Run_exit
    (E : Type) (build : Build) (node : Node E) (delegate : Delegate E)
    (fuel : nat) (e : E) (s : State) evs e' s' :
  1 <= nesting_level_ (pump s) ->
  Run build node delegate fuel e s = (evs, Done (e', s')) ->
  (exists ev h,
     evs = [Ev_uv_loop_new (brk s); Ev_new_async (S (brk s));
            Ev_uv_async_init (uv_loop_at (brk s)) (S (brk s));
            Ev_uv_idle_init (uv_loop_at (brk s));
            Ev_uv_timer_init (uv_loop_at (brk s))] ++
           ev ++ [Ev_uv_loop_delete (uv_loop_at (brk s)); Ev_delete_async h])
  /\ wakeup_event_ (pump s') = wakeup_event_ (pump s)
  /\ wakeup_event_ref_ (pump s') = wakeup_event_ (pump s)
  /\ (wakeup_event_ref_ (pump s) <> wakeup_event_ (pump s) ->
      wakeup_event_ref_ (pump s') <> wakeup_event_ref_ (pump s)).
Proof.
  intros Hn H.
  destruct (Run_returns_inv E build node delegate fuel e s evs e' s' H)
    as (ev & s1 & _ & Hl & Hw & -> & ->).
  assert (Hnest : nested s = true) by (unfold nested; lia).
  assert (H1 : (nesting_level_ (pump s1) >? 1) = true) by lia.
  unfold prologue_log, epilogue_log, own_loop, returned.
  rewrite Hnest, H1. cbn. split; [|split; [|split]].
  - exists ev, (wakeup_event_ref_ (pump s1)). reflexivity.
  - exact Hw.
  - exact Hw.
  - intros Hne. rewrite Hw. congruence.
Qed.

(** A [Run] entered from the outermost loop does hand the caller's handle
    back: there the caller's handle is the outermost one. *)
Lemma second_level_exit_restores_signal
    (E : Type) (build : Build) (node : Node E) (delegate : Delegate E)
    (fuel : nat) (e : E) (s : State) evs e' s' :
  1 <= nesting_level_ (pump s) ->
  wakeup_event_ref_ (pump s) = wakeup_event_ (pump s) ->
  Run build node delegate fuel e s = (evs, Done (e', s')) ->
  wakeup_event_ref_ (pump s') = wakeup_event_ref_ (pump s).
Proof.
  intros Hn Href H.
  destruct (nested_Run_exit E build node delegate fuel e s evs e' s' Hn H)
    as (_ & _ & Hw & _).
  congruence.
Qed.

(** ** The order of the steps *)





(** ** The delay timer *)

(** C4, as stated, fails with the conversion of Chromium's base library:
    the delegate's next task is due in 500 microseconds, the remaining
    delay is strictly positive, and the timer is armed with the timeout
    0. *)
Lemma timer_armed_with_zero_timeout :
  ~ Forall (fun ms => 0 < ms)
      (timer_timeouts
         (fst (Run (chromium_build true) Scenario.quitting_node
                 Scenario.due_soon 2 0%nat Scenario.fresh))).
Proof.
  vm_compute. intros H. inversion H as [|ms l H0 _]. discriminate H0.
Qed.

(** C4, amended.  In every log of [Run], at every level, each timeout
    passed to [uv_timer_start] is the conversion [InMilliseconds] of a
    strictly positive delay; when the deadline is set, the timer is armed
    with the conversion of the remaining delay, before the poll, if that
    delay is strictly positive, and if it is not, nothing is armed or
    polled and the deadline is cleared.  The conversion of Chromium's base
    library maps a strictly positive delay to a timeout that is never
    negative, and is zero exactly for the delays under one millisecond. *)
Theorem timer_armed_from_positive_delay
    (E : Type) (build : Build) (node : Node E) (delegate : Delegate E) :
  (forall fuel e s,
     Forall (timer_ok build) (fst (Run build node delegate fuel e s))) /\
  (forall run loop e s,
     let delay :=
       Time.minus (delayed_work_time_ (pump s)) (fst (Now node e)) in
     Time.is_null (delayed_work_time_ (pump s)) = false ->
     (0 < delay ->
      exists rest,
        fst (wait build node run loop e s) =
        Ev_uv_timer_start (nesting_level_ (pump s))
          (InMilliseconds build delay)
        :: EvStep (nesting_level_ (pump s)) Poll :: rest) /\
     (delay <= 0 ->
      wait build node run loop e s =
      ([], Done (snd (Now node e),
                 {| pump := set_delayed_work_time Time.null (pump s);
                    brk := brk s |})))) /\
  (forall d, 0 < d ->
     0 <= Time.InMilliseconds d /\ (Time.InMilliseconds d = 0 <-> d < 1000)).
Proof.
  split; [|split].
  - intros fuel e s.
    destruct (Run_inv E build node delegate _ fuel _ e s
                (conj eq_refl eq_refl)) as [Hev _].
    eapply Forall_impl; [|exact Hev]. intros ev [_ H]; exact H.
  - intros run loop e s delay Hnull. split.
    + apply wait_timer; assumption.
    + apply wait_overdue; assumption.
  - apply InMilliseconds_of_positive.
Qed.

Lemma timer_armed_from_positive_delay_witness :
  wait (chromium_build true) Scenario.idle_node
       (Run (chromium_build true) Scenario.idle_node Scenario.lazy 1)
       uv_default_loop 0%nat Scenario.overdue =
  ([], Done (0%nat,
             {| pump := set_delayed_work_time Time.null
                          (pump Scenario.overdue);
                brk := brk Scenario.overdue |})).
Proof.
  refine (proj2 (proj1 (proj2 (timer_armed_from_positive_delay nat
            (chromium_build true) Scenario.idle_node Scenario.lazy))
          _ uv_default_loop 0%nat Scenario.overdue _) _).
  - reflexivity.
  - vm_compute. discriminate.
Defined.

(** C5. In an iteration whose three delegate calls returned false with
    [keep_running_] still set, if the deadline is set and the remaining
    delay that the code computes, deadline minus now, is not positive, the
    iteration ends with the deadline cleared and without [uv_run]: its
    steps are the three delegate calls.  The loop goes on with its next
    iteration, which starts at [DoWork] and, if [DoWork] returns with
    [keep_running_] set, consults [DoDelayedWork] next. *)
Theorem overdue_deadline_is_cleared
    (E : Type) (build : Build) (node : Node E) (delegate : Delegate E)
    (fuel : nat) (loop : uv_loop) (e : E) (s : State)
    r1 s1 r2 s2 r3 s3 :
  let run := Run build node delegate fuel in
  let n := nesting_level_ (pump s) in
  let it := iteration build node delegate run loop e s in
  returns (exec run (DoWork delegate e)) s r1 s1 ->
  keep_running_ (pump s1) = true ->
  returns (exec run (DoDelayedWork delegate (snd r1))) s1 r2 s2 ->
  keep_running_ (pump s2) = true ->
  returns (exec run (DoIdleWork delegate (snd r2))) s2 r3 s3 ->
  keep_running_ (pump s3) = true ->
  fst r1 = false -> fst r2 = false -> fst r3 = false ->
  Time.is_null (delayed_work_time_ (pump s3)) = false ->
  Time.minus (delayed_work_time_ (pump s3)) (fst (Now node (snd r3))) <= 0 ->
  let e' := snd (Now node (snd r3)) in
  let s' := {| pump := set_delayed_work_time Time.null (pump s3);
               brk := brk s3 |} in
  snd it = Done ((Continue, e'), s') /\
  Time.is_null (delayed_work_time_ (pump s')) = true /\
  steps_at n (fst it) = [Immediate; Delayed; Idle] /\
  main_loop build node delegate (S fuel) loop e s =
    (fst it ++ fst (main_loop build node delegate fuel loop e' s'),
     snd (main_loop build node delegate fuel loop e' s')) /\
  forall f q t,
    returns (exec (Run build node delegate f) (DoWork delegate e')) s' q t ->
    keep_running_ (pump t) = true ->
    exists rest,
      steps_at n (fst (iteration build node delegate
                         (Run build node delegate f) loop e' s'))
      = Immediate :: Delayed :: rest.
Proof.
  intros run n it H1 K1 H2 K2 H3 K3 W1 W2 W3 Hnull Hd e' s'.
  apply returns_eq in H1. apply returns_eq in H2. apply returns_eq in H3.
  pose proof (level_after_DoWork E build node delegate fuel e s n eq_refl
                _ _ _ H1) as L1.
  pose proof (level_after_DoDelayedWork E build node delegate fuel e s n
                eq_refl _ _ _ H1 _ _ _ H2) as L2.
  pose proof (level_after_DoIdleWork E build node delegate fuel e s n
                eq_refl _ _ _ H1 _ _ _ H2 _ _ _ H3) as L3.
  destruct (exec_returned E build node delegate fuel _ _ _ _ _ _ eq_refl H1)
    as [N1 _].
  destruct (exec_returned E build node delegate fuel _ _ _ _ _ _ L1 H2)
    as [N2 _].
  destruct (exec_returned E build node delegate fuel _ _ _ _ _ _ L2 H3)
    as [N3 _].
  assert (W12 : fst r1 || fst r2 = false) by (rewrite W1, W2; reflexivity).
  pose proof (wait_after_no_work E build node delegate fuel loop e s n
                eq_refl _ _ _ H1 K1 _ _ _ H2 K2 W12 _ _ _ H3 K3 W3) as Heq.
  rewrite (bind_done _ _ _ _ _ _
             (wait_overdue E build node run loop (snd r3) s3 Hnull Hd))
    in Heq.
  cbn [fst snd ret app] in Heq. rewrite !app_nil_r in Heq.
  fold run in Heq. fold it in Heq. fold e' s' in Heq.
  assert (Hret : snd it = Done ((Continue, e'), s'))
    by (rewrite Heq; reflexivity).
  split; [exact Hret|]. split; [reflexivity|]. split; [|split].
  - rewrite Heq. cbn [fst]. rewrite steps_at_own, steps_at_app.
    fold n in N1. rewrite N1. cbn [app].
    rewrite steps_at_own, steps_at_app, N2. cbn [app].
    rewrite steps_at_own, N3. reflexivity.
  - apply (main_loop_continue E build node delegate fuel loop e s e' s' Hret).
  - intros f q t Hq Kq.
    apply (DoDelayedWork_follows E build node delegate f loop e' s' n q t);
      [exact L3|exact Hq|exact Kq].
Qed.

Lemma overdue_deadline_is_cleared_witness :
  snd (iteration (chromium_build true) Scenario.idle_node Scenario.lazy
         (Run (chromium_build true) Scenario.idle_node Scenario.lazy 1)
         uv_default_loop 0%nat Scenario.overdue)
  = Done ((Continue, 0%nat),
          {| pump := set_delayed_work_time Time.null (pump Scenario.overdue);
             brk := brk Scenario.overdue |}).
Proof.
  refine (proj1 (overdue_deadline_is_cleared nat (chromium_build true)
            Scenario.idle_node Scenario.lazy 1 uv_default_loop 0%nat
            Scenario.overdue
            (false, 0%nat) Scenario.overdue (false, 0%nat) Scenario.overdue
            (false, 0%nat) Scenario.overdue
            _ _ _ _ _ _ _ _ _ _ _));
    try reflexivity.
  vm_compute. discriminate.
Defined.

(** ** The checks of [keep_running_] *)

(** C6, as stated, fails for the poll and for the tick callback.  First
    run: the delegate has no work and no deadline, the loop polls, and a
    callback run by [uv_run] calls [Quit]; the loop does not break there
    but starts its next iteration and calls [DoWork], and breaks after it.
    Second run: [DoWork] did work, the tick callback calls [Quit], and
    [DoWork] is called once more before the loop breaks. *)
Lemma no_check_after_poll_or_tick :
  fst (Run (chromium_build true) Scenario.quitting_node Scenario.lazy 2 0%nat
         Scenario.fresh) =
  [Ev_uv_idle_init uv_default_loop; Ev_uv_timer_init uv_default_loop;
   EvStep 1 Immediate; EvStep 1 Delayed; EvStep 1 Idle;
   EvStep 1 Poll; Ev_Quit; EvStep 1 Immediate] /\
  fst (Run (chromium_build true) Scenario.quitting_node Scenario.busy 2 0%nat
         Scenario.fresh) =
  [Ev_uv_idle_init uv_default_loop; Ev_uv_timer_init uv_default_loop;
   EvStep 1 Immediate; EvStep 1 Delayed;
   EvStep 1 Tick; Ev_Quit; EvStep 1 Immediate].
Proof. split; vm_compute; reflexivity. Qed.

(** C6, amended.  After each of the three delegate calls the loop looks at
    [keep_running_], and if the call left it false the iteration breaks
    there, no further step is started, and the loop is over.  After the
    tick callback and after [uv_run] it does not look: an iteration that
    got to one of them and returns, returns [continue], whatever
    [keep_running_] is, and the loop goes on with its next iteration, which
    starts at [DoWork]. *)
Theorem flag_checked_after_delegate_calls
    (E : Type) (build : Build) (node : Node E) (delegate : Delegate E)
    (fuel : nat) (loop : uv_loop) (e : E) (s : State) :
  let run := Run build node delegate fuel in
  let n := nesting_level_ (pump s) in
  let it := iteration build node delegate run loop e s in
  let loop_ends e' s' :=
    main_loop build node delegate (S fuel) loop e s = (fst it, Done (e', s')) in
  (forall r1 s1,
     returns (exec run (DoWork delegate e)) s r1 s1 ->
     (keep_running_ (pump s1) = false ->
      snd it = Done ((Break, snd r1), s1) /\
      steps_at n (fst it) = [Immediate] /\ loop_ends (snd r1) s1) /\
     (keep_running_ (pump s1) = true ->
      forall r2 s2,
        returns (exec run (DoDelayedWork delegate (snd r1))) s1 r2 s2 ->
        (keep_running_ (pump s2) = false ->
         snd it = Done ((Break, snd r2), s2) /\
         steps_at n (fst it) = [Immediate; Delayed] /\
         loop_ends (snd r2) s2) /\
        (keep_running_ (pump s2) = true ->
         fst r1 || fst r2 = false ->
         forall r3 s3,
           returns (exec run (DoIdleWork delegate (snd r2))) s2 r3 s3 ->
           keep_running_ (pump s3) = false ->
           snd it = Done ((Break, snd r3), s3) /\
           steps_at n (fst it) = [Immediate; Delayed; Idle] /\
           loop_ends (snd r3) s3))) /\
  (forall c e' s',
     snd it = Done ((c, e'), s') ->
     In Tick (steps_at n (fst it)) \/ In Poll (steps_at n (fst it)) ->
     c = Continue /\
     main_loop build node delegate (S fuel) loop e s =
       (fst it ++ fst (main_loop build node delegate fuel loop e' s'),
        snd (main_loop build node delegate fuel loop e' s')) /\
     forall f, exists rest,
       fst (main_loop build node delegate (S f) loop e' s') =
       EvStep (nesting_level_ (pump s')) Immediate :: rest).
Proof.
  intros run n it loop_ends. split.
  - intros r1 s1 H1. apply returns_eq in H1.
    pose proof (level_after_DoWork E build node delegate fuel e s n eq_refl
                  _ _ _ H1) as L1.
    destruct (exec_returned E build node delegate fuel _ _ _ _ _ _ eq_refl H1)
      as [N1 _].
    fold n in N1. split.
    { intros K1.
      pose proof (break_after_DoWork E build node delegate fuel loop e s n
                    eq_refl _ _ _ H1 K1) as Heq.
      fold run in Heq. fold it in Heq.
      assert (Hret : snd it = Done ((Break, snd r1), s1))
        by (rewrite Heq; reflexivity).
      split; [exact Hret|]. split.
      - rewrite Heq. cbn [fst]. rewrite steps_at_own, N1. reflexivity.
      - apply (main_loop_break E build node delegate fuel loop e s _ _ Hret). }
    intros K1 r2 s2 H2. apply returns_eq in H2.
    pose proof (level_after_DoDelayedWork E build node delegate fuel e s n
                  eq_refl _ _ _ H1 _ _ _ H2) as L2.
    destruct (exec_returned E build node delegate fuel _ _ _ _ _ _ L1 H2)
      as [N2 _].
    split.
    { intros K2.
      pose proof (break_after_DoDelayedWork E build node delegate fuel loop e
                    s n eq_refl _ _ _ H1 K1 _ _ _ H2 K2) as Heq.
      fold run in Heq. fold it in Heq.
      assert (Hret : snd it = Done ((Break, snd r2), s2))
        by (rewrite Heq; reflexivity).
      split; [exact Hret|]. split.
      - rewrite Heq. cbn [fst]. rewrite steps_at_own, steps_at_app, N1.
        cbn [app]. rewrite steps_at_own, N2. reflexivity.
      - apply (main_loop_break E build node delegate fuel loop e s _ _ Hret). }
    intros K2 W12 r3 s3 H3 K3. apply returns_eq in H3.
    destruct (exec_returned E build node delegate fuel _ _ _ _ _ _ L2 H3)
      as [N3 _].
    pose proof (break_after_DoIdleWork E build node delegate fuel loop e
                  s n eq_refl _ _ _ H1 K1 _ _ _ H2 K2 W12 _ _ _ H3 K3) as Heq.
    fold run in Heq. fold it in Heq.
    assert (Hret : snd it = Done ((Break, snd r3), s3))
      by (rewrite Heq; reflexivity).
    split; [exact Hret|]. split.
    + rewrite Heq. cbn [fst]. rewrite steps_at_own, steps_at_app, N1.
      cbn [app]. rewrite steps_at_own, steps_at_app, N2. cbn [app].
      rewrite steps_at_own, N3. reflexivity.
    + apply (main_loop_break E build node delegate fuel loop e s _ _ Hret).
  - intros c e' s' Hc Hstep.
    pose proof (continue_after_tick_or_poll E build node delegate fuel loop e
                  s n c e' s' eq_refl Hc Hstep) as ->.
    split; [reflexivity|]. split.
    + apply (main_loop_continue E build node delegate fuel loop e s e' s' Hc).
    + intros f. apply main_loop_head.
Qed.

Lemma flag_checked_after_delegate_calls_witness :
  snd (iteration (chromium_build true) Scenario.idle_node
         Scenario.quit_at_once
         (Run (chromium_build true) Scenario.idle_node Scenario.quit_at_once 1)
         uv_default_loop 0%nat Scenario.running)
  = Done ((Break, 0%nat),
          {| pump := set_keep_running false (pump Scenario.running);
             brk := brk Scenario.running |}).
Proof.
  refine (proj1 (proj1 (proj1 (flag_checked_after_delegate_calls nat
            (chromium_build true) Scenario.idle_node Scenario.quit_at_once 1
            uv_default_loop 0%nat Scenario.running)
          (false, 0%nat)
          {| pump := set_keep_running false (pump Scenario.running);
             brk := brk Scenario.running |} _) _));
    reflexivity.
Defined.

(** * Further properties of the pump *)

(** ** Runs that return: a generic argument

    A relation between the state before, the log and the state after that
    holds of nothing done, composes, holds of each thing a callback or the
    loop can do by itself (a signal goes to the active handle), of a timer armed around a poll, and of [Run]'s
    prologue and epilogue around its loop, holds of every [Run] that
    returns. *)

Section Returning.

Variable R : State -> list Event -> State -> Prop.

Hypothesis R_refl : forall s, R s [] s.
Hypothesis R_trans : forall s e1 s1 e2 s2,
  R s e1 s1 -> R s1 e2 s2 -> R s (e1 ++ e2) s2.
Hypothesis R_step : forall s l st, R s [EvStep l st] s.
Hypothesis R_Quit : forall s,
  R s [Ev_Quit]
    {| pump := set_keep_running false (pump s); brk := brk s |}.
Hypothesis R_send : forall s,
  R s [Ev_uv_async_send (wakeup_event_ref_ (pump s))] s.
Hypothesis R_deadline : forall s t,
  R s [] {| pump := set_delayed_work_time t (pump s); brk := brk s |}.
Hypothesis R_timer : forall s lvl ms ev s' lvl',
  R s ev s' ->
  R s (Ev_uv_timer_start lvl ms :: ev ++
         [Ev_uv_idle_stop lvl'; Ev_uv_timer_stop lvl']) s'.
Hypothesis R_Run : forall s ev s1,
  nesting_level_ (pump s1) = nesting_level_ (pump s) + 1 ->
  R (entered s) ev s1 ->
  R s (prologue_log s ++ ev ++ epilogue_log (own_loop s) s1) (returned s1).

Lemma post_ret {A} (a : A) : post (ret a) R.
Proof. intros s evs a' s' [= <- _ <-]. apply R_refl. Qed.

Lemma post_bind {A B} (m : M A) (f : A -> M B) :
  post m R -> (forall a, post (f a) R) -> post (bind m f) R.
Proof.
  intros Hm Hf s evs b s2 H.
  destruct (bind_Done_inv _ _ _ _ _ _ H) as (ev1 & a & s1 & ev2 & H1 & H2 & ->).
  eapply R_trans; [eapply Hm; exact H1|eapply Hf; exact H2].
Qed.

Lemma post_get {A} (f : MessagePumpUV -> A) : post (get f) R.
Proof. intros s evs a s' [= <- _ <-]. apply R_refl. Qed.

Lemma post_step {A} st (m : M A) : post m R -> post (step st m) R.
Proof.
  intros Hm s evs a s' H. rewrite step_eq in H.
  destruct (m s) as [ev r] eqn:Hms. cbn [fst snd] in H.
  injection H as <- ->.
  apply (R_trans s [EvStep _ st] s ev s'); [apply R_step|].
  eapply Hm; exact Hms.
Qed.

Section Callbacks.

Variable E : Type.
Variable build : Build.
Variable node : Node E.
Variable delegate : Delegate E.
Variable run : E -> M E.
Hypothesis Hrun : forall e, post (run e) R.

Lemma post_exec {A} (c : Callback E A) : post (exec run c) R.
Proof.
  induction c as [a|k IH|k IH|t k IH|k IH|t k IH|e k IH]; simpl.
  - apply post_ret.
  - apply post_bind; [|intros _; exact IH].
    intros s evs a s' [= <- _ <-]. apply R_Quit.
  - apply post_bind; [|intros _; exact IH].
    intros s evs a s' [= <- _ <-]. apply R_send.
  - apply post_bind; [|intros _; exact IH].
    intros s evs a s' [= <- _ <-]. apply R_deadline.
  - apply post_bind; [apply post_get|intros t; apply IH].
  - apply post_bind; [|intros _; exact IH].
    intros s evs a s' [= <- _ <-]. apply R_deadline.
  - apply post_bind; [apply Hrun|intros e'; apply IH].
Qed.

Lemma post_tick e : post (tick node run e) R.
Proof.
  unfold tick. destruct (g_env node e).
  - apply post_step, post_exec.
  - apply post_ret.
Qed.

Lemma post_wait loop e : post (wait build node run loop e) R.
Proof.
  unfold wait. intros s evs a s' H. rewrite bind_get in H.
  destruct (Time.is_null _).
  { revert H. apply post_step, post_exec. }
  destruct (Now node e) as [now e1]. destruct (Time.gt _ _).
  - rewrite bind_get, bind_emit in H.
    match type of H with
    | (_ :: fst (?X ?s0), _) = _ =>
        destruct (X s0) as [evx rx] eqn:HX
    end.
    cbn [fst snd] in H. injection H as <- ->.
    destruct (bind_Done_inv _ _ _ _ _ _ HX)
      as (ev1 & e2 & s1 & ev2 & H1 & H2 & ->).
    rewrite bind_get, bind_emit, bind_emit in H2.
    cbn in H2. injection H2 as <- <- <-.
    apply R_timer.
    revert H1. apply post_step, post_exec.
  - rewrite bind_update in H. cbn in H.
    injection H as <- _ <-. apply R_deadline.
Qed.

Lemma post_iteration loop e :
  post (iteration build node delegate run loop e) R.
Proof.
  unfold iteration.
  apply post_bind; [apply post_step, post_exec|intros r1].
  apply post_bind; [apply post_get|intros k1].
  destruct (negb k1); [apply post_ret|].
  apply post_bind; [apply post_step, post_exec|intros r2].
  apply post_bind; [apply post_get|intros k2].
  destruct (negb k2); [apply post_ret|].
  destruct (fst r1 || fst r2).
  { apply post_bind; [apply post_tick|intros e'; apply post_ret]. }
  apply post_bind; [apply post_step, post_exec|intros r3].
  apply post_bind; [apply post_get|intros k3].
  destruct (negb k3); [apply post_ret|].
  destruct (fst r3).
  { apply post_bind; [apply post_tick|intros e'; apply post_ret]. }
  apply post_bind; [apply post_wait|intros e'; apply post_ret].
Qed.

End Callbacks.

Section Loop.

Variable E : Type.
Variable build : Build.
Variable node : Node E.
Variable delegate : Delegate E.

Lemma post_Run_of_loop f :
  (forall loop e, post (main_loop build node delegate f loop e) R) ->
  forall e, post (Run build node delegate f e) R.
Proof.
  intros Hl e s evs e' s' H.
  destruct (Run_returns_inv E build node delegate f e s evs e' s' H)
    as (ev & s1 & Hloop & Hn & _ & -> & ->).
  apply R_Run; [exact Hn|]. eapply Hl; exact Hloop.
Qed.

Lemma post_main_loop fuel :
  forall loop e, post (main_loop build node delegate fuel loop e) R.
Proof.
  induction fuel as [|f IH]; intros loop e.
  - intros s evs a s' H. discriminate H.
  - cbn [main_loop]. apply post_bind.
    + apply post_iteration. exact (post_Run_of_loop f IH).
    + intros r. destruct (fst r); [apply post_ret|apply IH].
Qed.

Lemma post_Run fuel e : post (Run build node delegate fuel e) R.
Proof. apply post_Run_of_loop. apply post_main_loop. Qed.

End Loop.

End Returning.

(** ** Loops and timers are given back *)

Lemma loops_made_app l a b :
  loops_made l (a ++ b) = (loops_made l a + loops_made l b)%nat.
Proof.
  induction a as [|ev a IH]; simpl; [reflexivity|].
  destruct ev; auto. destruct (Nat.eqb l0 l); simpl; now rewrite IH.
Qed.

Lemma loops_deleted_app l a b :
  loops_deleted l (a ++ b) = (loops_deleted l a + loops_deleted l b)%nat.
Proof.
  induction a as [|ev a IH]; simpl; [reflexivity|].
  destruct ev; auto. destruct l0; auto.
  destruct (Nat.eqb p l); simpl; now rewrite IH.
Qed.

Lemma default_loop_deleted_app a b :
  default_loop_deleted (a ++ b) =
  (default_loop_deleted a + default_loop_deleted b)%nat.
Proof.
  induction a as [|ev a IH]; simpl; [reflexivity|].
  destruct ev; auto. destruct l; simpl; now rewrite IH.
Qed.

Lemma timers_started_app a b :
  timers_started (a ++ b) = (timers_started a + timers_started b)%nat.
Proof.
  induction a as [|ev a IH]; simpl; [reflexivity|].
  destruct ev; simpl; now rewrite IH.
Qed.

Lemma timers_stopped_app a b :
  timers_stopped (a ++ b) = (timers_stopped a + timers_stopped b)%nat.
Proof.
  induction a as [|ev a IH]; simpl; [reflexivity|].
  destruct ev; simpl; now rewrite IH.
Qed.

Lemma idles_stopped_app a b :
  idles_stopped (a ++ b) = (idles_stopped a + idles_stopped b)%nat.
Proof.
  induction a as [|ev a IH]; simpl; [reflexivity|].
  destruct ev; simpl; now rewrite IH.
Qed.

Lemma nested_at_exit s s1 :
  nesting_level_ (pump s1) = nesting_level_ (pump s) + 1 ->
  (nesting_level_ (pump s1) >? 1) = nested s.
Proof. intros H. unfold nested. now rewrite H. Qed.

(** X1. Every loop that a returning [Run] makes with [uv_loop_new], in
    itself or in the [Run]s nested in it to any depth, it deletes with
    [uv_loop_delete] as many times as it was made, and [uv_default_loop()]
    is never deleted. *)
Theorem Run_deletes_the_loops_it_makes
    (E : Type) (build : Build) (node : Node E) (delegate : Delegate E)
    (fuel : nat) (e : E) (s : State) evs e' s' :
  Run build node delegate fuel e s = (evs, Done (e', s')) ->
  (forall l, loops_made l evs = loops_deleted l evs) /\
  default_loop_deleted evs = 0%nat.
Proof.
  revert s evs e' s'.
  change (post (Run build node delegate fuel e) loops_balanced).
  apply post_Run; unfold loops_balanced.
  - intros s. split; reflexivity.
  - intros s e1 s1 e2 s2 [H1 D1] [H2 D2]. split.
    + intros l. rewrite loops_made_app, loops_deleted_app, H1, H2.
      reflexivity.
    + rewrite default_loop_deleted_app, D1, D2. reflexivity.
  - intros; split; reflexivity.
  - intros; split; reflexivity.
  - intros; split; reflexivity.
  - intros; split; reflexivity.
  - intros s lvl ms ev s1 lvl' [H D]. split.
    + intros l. cbn [loops_made loops_deleted].
      rewrite loops_made_app, loops_deleted_app, H. reflexivity.
    + cbn [default_loop_deleted].
      rewrite default_loop_deleted_app, D. reflexivity.
  - intros s ev s1 Hn [H D].
    unfold prologue_log, epilogue_log, own_loop.
    rewrite (nested_at_exit s s1 Hn).
    destruct (nested s); split.
    + intros l. rewrite !loops_made_app, !loops_deleted_app, H. simpl.
      destruct (Nat.eqb (brk s) l); lia.
    + rewrite !default_loop_deleted_app, D. reflexivity.
    + intros l. rewrite !loops_made_app, !loops_deleted_app, H. simpl. lia.
    + rewrite !default_loop_deleted_app, D. reflexivity.
Qed.

Lemma Run_deletes_the_loops_it_makes_witness :
  exists evs e' s',
    Run (chromium_build true) Scenario.idle_node Scenario.three_levels 3
        0%nat Scenario.fresh = (evs, Done (e', s')) /\
    (forall l, loops_made l evs = loops_deleted l evs) /\
    default_loop_deleted evs = 0%nat.
Proof.
  do 3 eexists. split; [vm_compute; reflexivity|].
  eapply (Run_deletes_the_loops_it_makes nat (chromium_build true)
            Scenario.idle_node Scenario.three_levels 3 0%nat Scenario.fresh).
  vm_compute; reflexivity.
Defined.

(** X2. In a [Run] that returns, every timer armed with [uv_timer_start]
    has been stopped: the log has as many [uv_timer_stop] and as many
    [uv_idle_stop] as [uv_timer_start], over all nesting levels. *)
Theorem Run_stops_the_timers_it_arms
    (E : Type) (build : Build) (node : Node E) (delegate : Delegate E)
    (fuel : nat) (e : E) (s : State) evs e' s' :
  Run build node delegate fuel e s = (evs, Done (e', s')) ->
  timers_started evs = timers_stopped evs /\
  timers_started evs = idles_stopped evs.
Proof.
  revert s evs e' s'.
  change (post (Run build node delegate fuel e) timers_balanced).
  apply post_Run; unfold timers_balanced.
  - intros s. split; reflexivity.
  - intros s e1 s1 e2 s2 [H1 D1] [H2 D2].
    rewrite timers_started_app, timers_stopped_app, idles_stopped_app.
    lia.
  - intros; split; reflexivity.
  - intros; split; reflexivity.
  - intros; split; reflexivity.
  - intros; split; reflexivity.
  - intros s lvl ms ev s1 lvl' [H D].
    cbn [timers_started timers_stopped idles_stopped].
    rewrite timers_started_app, timers_stopped_app, idles_stopped_app.
    simpl. lia.
  - intros s ev s1 Hn [H D].
    unfold prologue_log, epilogue_log, own_loop.
    rewrite !timers_started_app, !timers_stopped_app, !idles_stopped_app.
    destruct (nested s); destruct (_ >? 1); simpl; lia.
Qed.

Lemma Run_stops_the_timers_it_arms_witness :
  exists evs e' s',
    Run (chromium_build true) Scenario.quitting_node Scenario.due_soon 2
        0%nat Scenario.fresh = (evs, Done (e', s')) /\
    timers_started evs = 1%nat /\
    timers_started evs = timers_stopped evs /\
    timers_started evs = idles_stopped evs.
Proof.
  do 3 eexists. split; [vm_compute; reflexivity|].
  split; [reflexivity|].
  eapply (Run_stops_the_timers_it_arms nat (chromium_build true)
            Scenario.quitting_node Scenario.due_soon 2 0%nat Scenario.fresh).
  vm_compute; reflexivity.
Defined.

(** ** The wake-up handles across [Run] *)

Lemma async_handles_app live a b :
  async_handles live (a ++ b) =
  match async_handles live a with
  | Some live' => async_handles live' b
  | None => None
  end.
Proof.
  revert live. induction a as [|ev a IH]; intros live; [reflexivity|].
  destruct ev; cbn [app async_handles]; try apply IH;
    destruct (alive h live); auto.
Qed.

Lemma depth_at_most_app m a b :
  depth_at_most m (a ++ b) = depth_at_most m a && depth_at_most m b.
Proof. unfold depth_at_most. now rewrite all_steps_app, forallb_app. Qed.

Lemma depth_at_most_prologue m s : depth_at_most m (prologue_log s) = true.
Proof. unfold depth_at_most. now rewrite all_steps_prologue. Qed.

Section Handles.

Variable w : ptr.

Lemma keeps_refl s : keeps_handles w s [] s.
Proof. intros _ Hw _ _ _ _ _. repeat split; auto. Qed.

Lemma keeps_trans s e1 s1 e2 s2 :
  keeps_handles w s e1 s1 -> keeps_handles w s1 e2 s2 ->
  keeps_handles w s (e1 ++ e2) s2.
Proof.
  intros H1 H2 Hd Hw Hb Hr Hn Hlow Hhigh.
  rewrite depth_at_most_app in Hd. apply andb_prop in Hd.
  destruct Hd as [Hd1 Hd2].
  destruct (H1 Hd1 Hw Hb Hr Hn Hlow Hhigh) as (A1 & W1 & B1 & R1 & N1).
  assert (Hl : handles_in_use w s1 = handles_in_use w s)
    by (unfold handles_in_use; now rewrite R1).
  destruct H2 as (A2 & W2 & B2 & R2 & N2);
    try rewrite R1; try rewrite N1; auto; try lia.
  rewrite async_handles_app, A1, <- Hl, A2, Hl.
  repeat split; try congruence. lia.
Qed.

Lemma keeps_step s l st : keeps_handles w s [EvStep l st] s.
Proof. intros _ Hw _ _ _ _ _. repeat split; auto. Qed.

Lemma keeps_Quit s :
  keeps_handles w s [Ev_Quit]
    {| pump := set_keep_running false (pump s); brk := brk s |}.
Proof. intros _ Hw _ _ _ _ _. repeat split; auto. Qed.

Lemma keeps_send s :
  keeps_handles w s [Ev_uv_async_send (wakeup_event_ref_ (pump s))] s.
Proof.
  intros _ Hw _ _ _ _ _. repeat split; auto.
  unfold handles_in_use.
  destruct (Nat.eqb (wakeup_event_ref_ (pump s)) w) eqn:Hq;
    cbn [async_handles alive existsb].
  - apply Nat.eqb_eq in Hq. rewrite Hq, Nat.eqb_refl. reflexivity.
  - rewrite Nat.eqb_refl. reflexivity.
Qed.

Lemma keeps_deadline s t :
  keeps_handles w s []
    {| pump := set_delayed_work_time t (pump s); brk := brk s |}.
Proof. intros _ Hw _ _ _ _ _. repeat split; auto. Qed.

Lemma keeps_timer s lvl ms ev s' lvl' :
  keeps_handles w s ev s' ->
  keeps_handles w s
    (Ev_uv_timer_start lvl ms :: ev ++
       [Ev_uv_idle_stop lvl'; Ev_uv_timer_stop lvl']) s'.
Proof.
  intros H Hd Hw Hb Hr Hn Hlow Hhigh.
  change (depth_at_most 2
            (ev ++ [Ev_uv_idle_stop lvl'; Ev_uv_timer_stop lvl']) = true)
    in Hd.
  rewrite depth_at_most_app, andb_true_r in Hd.
  destruct (H Hd Hw Hb Hr Hn Hlow Hhigh) as (A1 & W1 & B1 & R1 & N1).
  cbn [async_handles]. rewrite async_handles_app, A1.
  repeat split; auto.
Qed.

Variable E : Type.
Variable build : Build.
Variable node : Node E.
Variable delegate : Delegate E.

(** [Run] around a loop that keeps the handles: entered from outside it
    makes and deletes nothing; entered from the outermost loop it makes
    a handle and deletes that one; it does not return from a loop nested
    deeper without a step above the second level. *)
Lemma keeps_Run_of_loop f :
  (forall loop e,
     post (main_loop build node delegate f loop e) (keeps_handles w)) ->
  forall e, post (Run build node delegate f e) (keeps_handles w).
Proof.
  intros Hl e s evs e' s' H.
  destruct (Run_returns_inv E build node delegate f e s evs e' s' H)
    as (ev & s1 & Hloop & Hn1 & _ & -> & ->).
  pose proof (Hl _ _ _ _ _ _ Hloop) as HR.
  intros Hd Hw Hb Hr Hn Hlow Hhigh.
  rewrite !depth_at_most_app, depth_at_most_prologue in Hd.
  cbn [andb] in Hd. apply andb_prop in Hd. destruct Hd as [Hd _].
  assert (Hcase : nesting_level_ (pump s) = 0 \/
                  nesting_level_ (pump s) = 1 \/
                  nesting_level_ (pump s) = 2) by lia.
  destruct Hcase as [N|[N|N]].
  - (* the outermost loop *)
    assert (Hnest : nested s = false) by (unfold nested; now rewrite N).
    assert (Hx : (nesting_level_ (pump s1) >? 1) = false)
      by (rewrite Hn1, N; reflexivity).
    assert (Hin : handles_in_use w (entered s) = handles_in_use w s)
      by (unfold handles_in_use, entered; now rewrite Hnest).
    assert (Hre : wakeup_event_ref_ (pump (entered s)) =
                  wakeup_event_ref_ (pump s))
      by (unfold entered; now rewrite Hnest).
    assert (Hbe : brk (entered s) = brk s)
      by (unfold entered; now rewrite Hnest).
    destruct HR as (A1 & W1 & B1 & R1 & L1).
    + exact Hd.
    + now rewrite wakeup_entered.
    + rewrite Hbe; lia.
    + rewrite Hre, Hbe; lia.
    + rewrite nesting_entered; lia.
    + intros _. rewrite Hre. apply Hlow. lia.
    + rewrite nesting_entered; lia.
    + rewrite Hin in A1. rewrite Hre in R1. rewrite Hbe in B1.
      unfold prologue_log, epilogue_log, own_loop, returned.
      rewrite Hnest, Hx, app_nil_r. cbn [app async_handles].
      split; [exact A1|]. cbn. repeat split; auto. lia.
  - (* one loop nested in the outermost *)
    assert (Hnest : nested s = true) by (unfold nested; now rewrite N).
    assert (Hx : (nesting_level_ (pump s1) >? 1) = true)
      by (rewrite Hn1, N; reflexivity).
    assert (Href : wakeup_event_ref_ (pump s) = w) by (apply Hlow; lia).
    assert (Hne : Nat.eqb (S (brk s)) w = false)
      by (apply Nat.eqb_neq; lia).
    assert (Hin : handles_in_use w (entered s) = [S (brk s); w]).
    { unfold handles_in_use, entered. rewrite Hnest.
      cbn [pump wakeup_event_ref_ set_wakeup_event_ref].
      now rewrite Hne. }
    assert (Hre : wakeup_event_ref_ (pump (entered s)) = S (brk s))
      by (unfold entered; now rewrite Hnest).
    assert (Hbe : brk (entered s) = S (S (brk s)))
      by (unfold entered; now rewrite Hnest).
    assert (Hs : handles_in_use w s = [w])
      by (unfold handles_in_use; now rewrite Href, Nat.eqb_refl).
    destruct HR as (A1 & W1 & B1 & R1 & L1).
    + exact Hd.
    + now rewrite wakeup_entered.
    + rewrite Hbe; lia.
    + rewrite Hre, Hbe; lia.
    + rewrite nesting_entered; lia.
    + rewrite nesting_entered; lia.
    + intros _. rewrite Hre. lia.
    + rewrite Hin in A1. rewrite Hre in R1. rewrite Hbe in B1.
      unfold prologue_log, epilogue_log, own_loop, returned.
      rewrite Hnest, Hx, Hs. split.
      * cbn [app async_handles]. unfold alive at 1. cbn [existsb].
        rewrite Nat.eqb_refl. cbn [orb].
        rewrite async_handles_app. unfold ptr in *.
        rewrite A1, R1. cbn [async_handles].
        unfold alive. cbn [existsb filter].
        rewrite Nat.eqb_refl, Hne. reflexivity.
      * cbn. repeat split; auto; lia.
  - (* deeper: the loop logs a step at the third level *)
    exfalso. destruct f as [|f']; [discriminate Hloop|].
    destruct (main_loop_head E build node delegate f' (own_loop s) e
                (entered s)) as [rest Hrest].
    rewrite Hloop in Hrest. cbn [fst] in Hrest. subst ev.
    rewrite nesting_entered, N in Hd. discriminate Hd.
Qed.

Lemma keeps_main_loop fuel :
  forall loop e,
    post (main_loop build node delegate fuel loop e) (keeps_handles w).
Proof.
  induction fuel as [|f IH]; intros loop e.
  - intros s evs a s' H. discriminate H.
  - cbn [main_loop]. apply post_bind; [exact keeps_trans| |].
    + apply post_iteration;
        first [ exact keeps_refl | exact keeps_trans | exact keeps_step
              | exact keeps_Quit | exact keeps_send | exact keeps_deadline
              | exact keeps_timer | exact (keeps_Run_of_loop f IH) ].
    + intros r. destruct (fst r); [|apply IH].
      apply post_ret. exact keeps_refl.
Qed.

Lemma keeps_Run fuel e :
  post (Run build node delegate fuel e) (keeps_handles w).
Proof. apply keeps_Run_of_loop, keeps_main_loop. Qed.

End Handles.

(** X3. A [Run] entered from outside of any loop, while the active handle
    [wakeup_event_ref_] is the pump's own handle [wakeup_event_] (as on a
    constructed pump), in which at most one loop at a time is nested in
    the outermost one, and that returns: every handle it signals,
    initialises or deletes is alive then, every handle it makes it
    deletes, and the pump's own handle is alive at the end and is the
    active one again, so that a [ScheduleWork] made after it signals a
    handle that is alive. *)
Theorem Run_with_one_nested_loop_keeps_the_signal
    (E : Type) (build : Build) (node : Node E) (delegate : Delegate E)
    (fuel : nat) (e : E) (s : State) evs e' s' :
  nesting_level_ (pump s) = 0 ->
  wakeup_event_ref_ (pump s) = wakeup_event_ (pump s) ->
  (wakeup_event_ (pump s) < brk s)%nat ->
  Run build node delegate fuel e s = (evs, Done (e', s')) ->
  depth_at_most 2 evs = true ->
  async_handles [wakeup_event_ (pump s)] evs = Some [wakeup_event_ (pump s)] /\
  wakeup_event_ (pump s') = wakeup_event_ (pump s) /\
  wakeup_event_ref_ (pump s') = wakeup_event_ (pump s) /\
  async_handles [wakeup_event_ (pump s)] (evs ++ fst (ScheduleWork s')) =
    Some [wakeup_event_ (pump s)].
Proof.
  intros N Href Hb H Hd.
  destruct (keeps_Run (wakeup_event_ (pump s)) E build node delegate fuel e
              s evs e' s' H) as (A & W & _ & R & _);
    auto; try lia; try congruence.
  unfold handles_in_use in A. rewrite Href, Nat.eqb_refl in A.
  rewrite Href in R.
  split; [exact A|]. split; [exact W|]. split; [exact R|].
  rewrite async_handles_app, A.
  unfold ScheduleWork. rewrite bind_get. cbn. rewrite R, Nat.eqb_refl.
  reflexivity.
Qed.

Lemma Run_with_one_nested_loop_keeps_the_signal_witness :
  exists evs e' s',
    Run (chromium_build true) Scenario.idle_node Scenario.two_levels 2 0%nat
        Scenario.fresh = (evs, Done (e', s')) /\
    In (Ev_new_async 3%nat) evs /\
    async_handles [1%nat] evs = Some [1%nat] /\
    wakeup_event_ (pump s') = 1%nat /\
    wakeup_event_ref_ (pump s') = 1%nat /\
    async_handles [1%nat] (evs ++ fst (ScheduleWork s')) = Some [1%nat].
Proof.
  do 3 eexists. split; [vm_compute; reflexivity|].
  split; [vm_compute; tauto|].
  eapply (Run_with_one_nested_loop_keeps_the_signal nat (chromium_build true)
            Scenario.idle_node Scenario.two_levels 2 0%nat Scenario.fresh);
    vm_compute; try reflexivity; lia.
Defined.

(** The bound on the nesting is needed: with a third level the exit of the
    second loop deletes the pump's own handle and leaks its own; the
    [ScheduleWork] that follows the [Run] signals a deleted handle. *)
Example third_level_frees_the_own_handle :
  exists evs e' s',
    Run (chromium_build true) Scenario.idle_node Scenario.three_levels 3
        0%nat Scenario.fresh = (evs, Done (e', s')) /\
    depth_at_most 2 evs = false /\
    async_handles [1%nat] evs = Some [3%nat] /\
    async_handles [1%nat] (evs ++ fst (ScheduleWork s')) = None.
Proof.
  do 3 eexists. split; [vm_compute; reflexivity|].
  repeat split; vm_compute; reflexivity.
Qed.

(** ** Leaving the loop *)

Section Leaving.

Variable E : Type.
Variable build : Build.
Variable node : Node E.
Variable delegate : Delegate E.

(** An iteration breaks only out of a state whose [keep_running_] is
    false. *)
Lemma iteration_breaks_on_cleared_flag run loop e s evs e' s' :
  iteration build node delegate run loop e s
    = (evs, Done ((Break, e'), s')) ->
  keep_running_ (pump s') = false.
Proof.
  unfold iteration. intros H.
  destruct (bind_Done_inv _ _ _ _ _ _ H)
    as (ev1 & r1 & s1 & ev1' & _ & H1 & _). clear H.
  rewrite bind_get in H1.
  destruct (keep_running_ (pump s1)) eqn:K1; cbn [negb] in H1.
  2: { injection H1 as _ _ <-. exact K1. }
  destruct (bind_Done_inv _ _ _ _ _ _ H1)
    as (ev2 & r2 & s2 & ev2' & _ & H2 & _). clear H1.
  rewrite bind_get in H2.
  destruct (keep_running_ (pump s2)) eqn:K2; cbn [negb] in H2.
  2: { injection H2 as _ _ <-. exact K2. }
  destruct (fst r1 || fst r2).
  { destruct (bind_Done_inv _ _ _ _ _ _ H2)
      as (? & ? & ? & ? & _ & Hr & _). discriminate Hr. }
  destruct (bind_Done_inv _ _ _ _ _ _ H2)
    as (ev3 & r3 & s3 & ev3' & _ & H3 & _). clear H2.
  rewrite bind_get in H3.
  destruct (keep_running_ (pump s3)) eqn:K3; cbn [negb] in H3.
  2: { injection H3 as _ _ <-. exact K3. }
  destruct (fst r3);
    destruct (bind_Done_inv _ _ _ _ _ _ H3)
      as (? & ? & ? & ? & _ & Hr & _); discriminate Hr.
Qed.

Lemma main_loop_returns_on_cleared_flag fuel :
  forall loop e s evs e' s',
    main_loop build node delegate fuel loop e s = (evs, Done (e', s')) ->
    keep_running_ (pump s') = false.
Proof.
  induction fuel as [|f IH]; intros loop e s evs e' s' H;
    [discriminate H|].
  cbn [main_loop] in H.
  destruct (bind_Done_inv _ _ _ _ _ _ H)
    as (ev1 & [c e1] & s1 & ev2 & Hit & Hk & _).
  destruct c; cbn [fst snd] in Hk.
  - injection Hk as _ _ <-.
    exact (iteration_breaks_on_cleared_flag _ _ _ _ _ _ _ Hit).
  - exact (IH _ _ _ _ _ _ Hk).
Qed.

End Leaving.

(** X4. [Run] returns only after a [Quit]: a [Run] entered with
    [keep_running_] true that returns has a call of [Quit] in its log.  The
    loop is left by [break] alone, out of a state whose flag is false, and
    nothing but [Quit] clears the flag. *)
Theorem Run_returns_only_after_Quit
    (E : Type) (build : Build) (node : Node E) (delegate : Delegate E)
    (fuel : nat) (e : E) (s : State) evs e' s' :
  keep_running_ (pump s) = true ->
  Run build node delegate fuel e s = (evs, Done (e', s')) ->
  In Ev_Quit evs.
Proof.
  intros Hk H.
  destruct (Run_returns_inv E build node delegate fuel e s evs e' s' H)
    as (ev & s1 & Hloop & _ & _ & -> & _).
  pose proof (main_loop_returns_on_cleared_flag E build node delegate fuel
                _ _ _ _ _ _ Hloop) as Hf.
  assert (P : post (main_loop build node delegate fuel (own_loop s) e)
                quit_or_kept).
  { apply post_main_loop; unfold quit_or_kept.
    - intros; auto.
    - intros s0 e1 s2 e2 s3 [Q1|K1] [Q2|K2];
        try (left; apply in_or_app; auto; fail).
      right; auto.
    - intros; right; auto.
    - intros; left; simpl; auto.
    - intros; right; auto.
    - intros; right; auto.
    - intros s0 lvl ms ev0 s2 lvl' [Q|K]; [left|right; exact K].
      right. apply in_or_app. auto.
    - intros s0 ev0 s2 _ _. right. reflexivity. }
  destruct (P _ _ _ _ Hloop) as [Q|K].
  - apply in_or_app. right. apply in_or_app. left. exact Q.
  - assert (Hke : keep_running_ (pump (entered s)) = true)
      by (unfold entered; destruct (nested s); exact Hk).
    rewrite (K Hke) in Hf. discriminate Hf.
Qed.

Lemma Run_returns_only_after_Quit_witness :
  In Ev_Quit
    (fst (Run (chromium_build true) Scenario.idle_node Scenario.quit_at_once
            1 0%nat Scenario.fresh)).
Proof.
  eapply (Run_returns_only_after_Quit nat (chromium_build true)
            Scenario.idle_node Scenario.quit_at_once 1 0%nat Scenario.fresh).
  - reflexivity.
  - vm_compute; reflexivity.
Defined.

(** ** Iterations without work, and entering [Run] again *)

Lemma timers_at_app lvl a b :
  timers_at lvl (a ++ b) = timers_at lvl a ++ timers_at lvl b.
Proof.
  induction a as [|ev a IH]; simpl; [reflexivity|].
  destruct ev; auto. destruct (lvl0 =? lvl); simpl; now rewrite IH.
Qed.

Lemma timers_at_above n evs : Forall (above n) evs -> timers_at n evs = [].
Proof.
  induction 1 as [|ev evs H _ IH]; simpl; [reflexivity|].
  destruct ev; auto. simpl in H.
  destruct (Z.eqb_spec lvl n); [lia|assumption].
Qed.

Lemma exec_arms_no_timer_here
    (E : Type) (build : Build) (node : Node E) (delegate : Delegate E)
    (fuel : nat) {A} (c : Callback E A) s n :
  nesting_level_ (pump s) = n ->
  timers_at n (fst (exec (Run build node delegate fuel) c s)) = [].
Proof.
  intros Hs.
  destruct (exec_inv E build (wakeup_event_ (pump s))
              (Run build node delegate fuel) n
              (fun e0 s0 =>
                 nested_Run_inv E build node delegate _ fuel _ e0 s0)
              A c s (conj Hs eq_refl)) as [Hev _].
  apply timers_at_above. eapply Forall_impl; [|exact Hev].
  intros ev [H _]; exact H.
Qed.

(** X5. An iteration whose three delegate calls returned false with
    [keep_running_] set, and that finds no deadline set, polls once: its
    steps are the three calls and one [uv_run], made on the loop of this
    [Run] with no timer armed, and when [uv_run] returns the iteration is
    over, with [continue]. *)
Theorem idle_iteration_polls_without_timer
    (E : Type) (build : Build) (node : Node E) (delegate : Delegate E)
    (fuel : nat) (loop : uv_loop) (e : E) (s : State)
    r1 s1 r2 s2 r3 s3 :
  let run := Run build node delegate fuel in
  let n := nesting_level_ (pump s) in
  let it := iteration build node delegate run loop e s in
  returns (exec run (DoWork delegate e)) s r1 s1 ->
  keep_running_ (pump s1) = true ->
  returns (exec run (DoDelayedWork delegate (snd r1))) s1 r2 s2 ->
  keep_running_ (pump s2) = true ->
  returns (exec run (DoIdleWork delegate (snd r2))) s2 r3 s3 ->
  keep_running_ (pump s3) = true ->
  fst r1 = false -> fst r2 = false -> fst r3 = false ->
  Time.is_null (delayed_work_time_ (pump s3)) = true ->
  steps_at n (fst it) = [Immediate; Delayed; Idle; Poll] /\
  timers_at n (fst it) = [] /\
  forall e4 s4,
    returns (exec run (uv_run node loop None (snd r3))) s3 e4 s4 ->
    snd it = Done ((Continue, e4), s4).
Proof.
  intros run n it H1 K1 H2 K2 H3 K3 W1 W2 W3 Hnull.
  apply returns_eq in H1. apply returns_eq in H2. apply returns_eq in H3.
  pose proof (level_after_DoWork E build node delegate fuel e s n eq_refl
                _ _ _ H1) as L1.
  pose proof (level_after_DoDelayedWork E build node delegate fuel e s n
                eq_refl _ _ _ H1 _ _ _ H2) as L2.
  pose proof (level_after_DoIdleWork E build node delegate fuel e s n
                eq_refl _ _ _ H1 _ _ _ H2 _ _ _ H3) as L3.
  destruct (exec_returned E build node delegate fuel _ _ _ _ _ _ eq_refl H1)
    as [N1 _].
  destruct (exec_returned E build node delegate fuel _ _ _ _ _ _ L1 H2)
    as [N2 _].
  destruct (exec_returned E build node delegate fuel _ _ _ _ _ _ L2 H3)
    as [N3 _].
  pose proof (exec_arms_no_timer_here E build node delegate fuel
                (DoWork delegate e) s n eq_refl) as T1.
  pose proof (exec_arms_no_timer_here E build node delegate fuel
                (DoDelayedWork delegate (snd r1)) s1 n L1) as T2.
  pose proof (exec_arms_no_timer_here E build node delegate fuel
                (DoIdleWork delegate (snd r2)) s2 n L2) as T3.
  pose proof (exec_arms_no_timer_here E build node delegate fuel
                (uv_run node loop None (snd r3)) s3 n L3) as T4.
  destruct (exec_out E build node delegate fuel
              (uv_run node loop None (snd r3)) s3 n L3) as [N4 _].
  fold run in T1, T2, T3, T4, N4. rewrite H1 in T1. rewrite H2 in T2.
  rewrite H3 in T3. cbn [fst] in T1, T2, T3.
  assert (W12 : fst r1 || fst r2 = false) by (rewrite W1, W2; reflexivity).
  pose proof (wait_after_no_work E build node delegate fuel loop e s n
                eq_refl _ _ _ H1 K1 _ _ _ H2 K2 W12 _ _ _ H3 K3 W3) as Heq.
  fold run in Heq. fold it in Heq.
  assert (Hw : (e' <- wait build node run loop (snd r3) ;;
                ret (Continue, e')) s3 =
               (EvStep n Poll ::
                  fst (exec run (uv_run node loop None (snd r3)) s3),
                match snd (exec run (uv_run node loop None (snd r3)) s3) with
                | Done (e4, s4) => Done ((Continue, e4), s4)
                | OutOfFuel => OutOfFuel
                | Fatal => Fatal
                end)).
  { unfold wait. rewrite bind_bind, bind_get, Hnull, bind_step, L3.
    unfold bind.
    destruct (exec run (uv_run node loop None (snd r3)) s3)
      as [ev [[e4 s4]| |]]; cbn; rewrite ?app_nil_r; reflexivity. }
  rewrite Hw in Heq. cbn [fst snd] in Heq.
  split; [|split].
  - rewrite Heq. cbn [fst]. rewrite steps_at_own, steps_at_app.
    fold n in N1. rewrite N1. cbn [app].
    rewrite steps_at_own, steps_at_app, N2. cbn [app].
    rewrite steps_at_own, steps_at_app, N3. cbn [app].
    rewrite steps_at_own, N4. reflexivity.
  - rewrite Heq. cbn [fst timers_at].
    rewrite timers_at_app, T1. cbn [app timers_at].
    rewrite timers_at_app, T2. cbn [app timers_at].
    rewrite timers_at_app, T3. cbn [app timers_at]. exact T4.
  - intros e4 s4 H4. unfold returns in H4. rewrite Heq. cbn [snd].
    rewrite H4. reflexivity.
Qed.

Lemma idle_iteration_polls_without_timer_witness :
  steps_at 1
    (fst (iteration (chromium_build true) Scenario.idle_node Scenario.lazy
            (Run (chromium_build true) Scenario.idle_node Scenario.lazy 1)
            uv_default_loop 0%nat Scenario.running))
  = [Immediate; Delayed; Idle; Poll].
Proof.
  refine (proj1 (idle_iteration_polls_without_timer nat (chromium_build true)
            Scenario.idle_node Scenario.lazy 1 uv_default_loop 0%nat
            Scenario.running
            (false, 0%nat) Scenario.running (false, 0%nat) Scenario.running
            (false, 0%nat) Scenario.running
            _ _ _ _ _ _ _ _ _ _));
    reflexivity.
Defined.

Lemma Run_with_flag_set_starts
    (E : Type) (build : Build) (node : Node E) (delegate : Delegate E)
    (f : nat) (e : E) (s : State) :
  keep_running_ (pump s) = true ->
  exists rest,
    all_steps (fst (Run build node delegate (S f) e s)) =
    (nesting_level_ (pump s) + 1, Immediate) :: rest.
Proof.
  intros Hk. unfold Run. rewrite Run_around_eq, Hk, andb_false_r.
  destruct (main_loop_head E build node delegate f (own_loop s) e (entered s))
    as [rest Hrest].
  rewrite nesting_entered in Hrest.
  destruct (main_loop _ _ _ _ _ _ _) as [ev [[e1 s1]| |]];
    cbn [fst] in *; subst ev;
    rewrite all_steps_app, all_steps_prologue; simpl;
    eexists; reflexivity.
Qed.

(** X6. [Run] can be entered again: after a [Run] that returned, the next
    [Run] on the same pump, in any build, passes the check of
    [keep_running_] and starts its loop; the first step in its log is
    [DoWork], at the same nesting level as the first [Run]'s loop. *)
Theorem Run_can_be_entered_again
    (E : Type) (build : Build) (node : Node E) (delegate : Delegate E)
    (fuel : nat) (e : E) (s : State) evs e1 s1 :
  Run build node delegate fuel e s = (evs, Done (e1, s1)) ->
  forall (delegate2 : Delegate E) (f2 : nat) (e2 : E),
  exists rest,
    all_steps (fst (Run build node delegate2 (S f2) e2 s1)) =
    (nesting_level_ (pump s) + 1, Immediate) :: rest.
Proof.
  intros H delegate2 f2 e2.
  destruct (Run_inv E build node delegate (wakeup_event_ (pump s)) fuel
              (nesting_level_ (pump s)) e s (conj eq_refl eq_refl))
    as [_ Hpost].
  rewrite H in Hpost. destruct (Hpost e1 s1 eq_refl) as [[Hl _] Hk].
  rewrite <- Hl. apply Run_with_flag_set_starts. exact Hk.
Qed.

Lemma Run_can_be_entered_again_witness :
  exists rest,
    all_steps
      (fst (Run (chromium_build true) Scenario.idle_node Scenario.lazy 1
              0%nat Scenario.fresh)) = (1, Immediate) :: rest.
Proof.
  refine (Run_can_be_entered_again nat (chromium_build true)
            Scenario.idle_node Scenario.quit_at_once 1 0%nat Scenario.fresh
            _ 0%nat Scenario.fresh _ Scenario.lazy 0%nat 0%nat).
  vm_compute; reflexivity.
Defined.

(** X7. A [Quit] made by a callback before it enters a nested [Run] does
    not end the enclosing loop.  When [DoWork] calls [Quit], then [Run],
    and returns: in a build with DCHECKs on, the nested [Run] aborts on its
    check of [keep_running_]; in any build, if the nested [Run] returns, it
    has set [keep_running_] again, so the enclosing iteration does not
    break after [DoWork] and goes on to [DoDelayedWork]. *)
Theorem Quit_before_nested_Run_is_not_kept
    (E : Type) (build : Build) (node : Node E) (delegate : Delegate E)
    (fuel : nat) (loop : uv_loop) (e : E) (s : State) (e1 : E) (b : bool) :
  let run := Run build node delegate fuel in
  let n := nesting_level_ (pump s) in
  let it := iteration build node delegate run loop e s in
  DoWork delegate e = CallQuit (CallRun e1 (fun e2 => Return (b, e2))) ->
  (DCHECK_IS_ON build = true ->
   it = ([EvStep n Immediate; Ev_Quit], Fatal)) /\
  (forall r1 s1,
     returns (exec run (DoWork delegate e)) s r1 s1 ->
     keep_running_ (pump s1) = true /\
     exists rest, steps_at n (fst it) = Immediate :: Delayed :: rest).
Proof.
  intros run n it Hc. split.
  - intros Hd. unfold it, iteration. rewrite bind_step. fold n.
    rewrite Hc. cbn [exec]. unfold Quit.
    repeat first [rewrite bind_bind | rewrite bind_emit | rewrite bind_update].
    cbn [fst snd].
    assert (Hf : run e1 {| pump := set_keep_running false (pump s);
                           brk := brk s |} = ([], Fatal)).
    { unfold run, Run. rewrite Run_around_eq, Hd. reflexivity. }
    rewrite !(bind_fatal _ _ _ _ Hf). reflexivity.
  - intros r1 s1 H1.
    assert (K1 : keep_running_ (pump s1) = true).
    { unfold returns in H1. rewrite Hc in H1. cbn [exec] in H1.
      unfold Quit in H1.
      repeat first [rewrite bind_bind in H1 | rewrite bind_emit in H1
                   | rewrite bind_update in H1].
      cbn [fst snd] in H1.
      set (sq := {| pump := set_keep_running false (pump s);
                    brk := brk s |}) in *.
      destruct (run e1 sq) as [ev [[e2 s2]| |]] eqn:Hrun;
        [|rewrite (bind_out_of_fuel _ _ _ _ Hrun) in H1; discriminate H1
         |rewrite (bind_fatal _ _ _ _ Hrun) in H1; discriminate H1].
      rewrite (bind_done _ _ _ _ _ _ Hrun) in H1. cbn in H1.
      injection H1 as _ <-.
      destruct (Run_inv E build node delegate _ fuel _ e1 sq
                  (conj eq_refl eq_refl)) as [_ Hpost].
      fold run in Hpost. rewrite Hrun in Hpost.
      exact (proj2 (Hpost e2 s2 eq_refl)). }
    split; [exact K1|].
    apply (DoDelayedWork_follows E build node delegate fuel loop e s n r1 s1
             eq_refl H1 K1).
Qed.

Lemma Quit_before_nested_Run_is_not_kept_witness :
  exists rest,
    steps_at 1
      (fst (iteration (chromium_build false) Scenario.idle_node
              Sample.quit_then_nest
              (Run (chromium_build false) Scenario.idle_node
                 Sample.quit_then_nest 1)
              uv_default_loop 0%nat Scenario.running))
    = Immediate :: Delayed :: rest.
Proof.
  refine (proj2 (proj2 (Quit_before_nested_Run_is_not_kept nat
            (chromium_build false) Scenario.idle_node Sample.quit_then_nest 1
            uv_default_loop 0%nat Scenario.running 1%nat true eq_refl)
          (true, 1%nat)
          {| pump := {| keep_running_ := true; nesting_level_ := 1;
                        delayed_work_time_ := 0;
                        wakeup_event_ := 1%nat; wakeup_event_ref_ := 1%nat |};
             brk := 4%nat |} _)).
  vm_compute; reflexivity.
Defined.

(** ** A constructed pump *)

(** X13. On any machine, the constructor leaves a pump that is ready: it
    has made one handle and initialised it on [uv_default_loop()];
    [ScheduleWork], before any [Run], signals that handle; and [Run], in
    any build and for any delegate, passes its check, makes no loop or
    handle of its own, and starts its loop on [uv_default_loop()] with
    [DoWork] at nesting level 1. *)
Theorem constructed_pump_is_ready (s0 : State) :
  exists s,
    constructor s0 =
      ([Ev_new_async (brk s0); Ev_uv_async_init uv_default_loop (brk s0)],
       Done (tt, s)) /\
    fst (ScheduleWork s) = [Ev_uv_async_send (brk s0)] /\
    wakeup_event_ref_ (pump s) = wakeup_event_ (pump s) /\
    forall (E : Type) (build : Build) (node : Node E)
           (delegate : Delegate E) (f : nat) (e : E),
    exists rest,
      fst (Run build node delegate (S f) e s) =
      Ev_uv_idle_init uv_default_loop :: Ev_uv_timer_init uv_default_loop ::
      EvStep 1 Immediate :: rest.
Proof.
  eexists. split; [reflexivity|]. split; [reflexivity|].
  split; [reflexivity|].
  intros E build node delegate f e.
  unfold Run. rewrite Run_around_eq. cbn [pump keep_running_ negb].
  rewrite andb_false_r.
  match goal with
  | |- context [main_loop build node delegate (S f) ?l e ?s1] =>
      destruct (main_loop_head E build node delegate f l e s1)
        as [rest Hrest];
      destruct (main_loop build node delegate (S f) l e s1)
        as [ev [[e1 s2]| |]]
  end;
    cbn [fst] in Hrest; subst ev; cbn; eexists; reflexivity.
Qed.

(** * Properties of the service connector *)

Section MapFacts.

Variable V : Type.

Lemma compare_same k : String.compare k k = Eq.
Proof.
  pose proof (String.compare_antisym k k) as H.
  destruct (String.compare k k); [reflexivity|discriminate|discriminate].
Qed.

Lemma compare_neq k k' :
  String.compare k k' <> Eq -> String.eqb k k' = false.
Proof.
  intros H. apply String.eqb_neq. intros ->. apply H, compare_same.
Qed.

Lemma find_assign_same k (v : V) m :
  Connector.find k (Connector.assign k v m) = Some v.
Proof.
  induction m as [|[k' v'] m IH]; simpl.
  - now rewrite String.eqb_refl.
  - destruct (String.compare k k') eqn:C; simpl.
    + now rewrite String.eqb_refl.
    + now rewrite String.eqb_refl.
    + rewrite compare_neq by congruence. exact IH.
Qed.

Lemma find_assign_other k k2 (v : V) m :
  k2 <> k ->
  Connector.find k2 (Connector.assign k v m) = Connector.find k2 m.
Proof.
  intros Hne.
  assert (Hb : String.eqb k2 k = false) by now apply String.eqb_neq.
  induction m as [|[k' v'] m IH]; simpl.
  - now rewrite Hb.
  - destruct (String.compare k k') eqn:C; simpl.
    + apply String.compare_eq_iff in C. subst k'. now rewrite Hb.
    + now rewrite Hb.
    + destruct (String.eqb k2 k'); [reflexivity|exact IH].
Qed.


End MapFacts.

(** ** Loaders *)

(** X8. A loader registered for a URL is the loader found for it, whatever
    was registered before and whatever the default loader is; the loader
    found for any other URL is as before, and no factory is touched. *)
Theorem registered_loader_is_found
    (build : Build) (loader : ptr) (gurl : Connector.GURL)
    (w w' : Connector.World) :
  Connector.SetLoaderForURL build loader gurl w
    = ([], Connector.Returned tt w') ->
  Connector.GetLoaderForURL build gurl w' = ([], Connector.Returned loader w')
  /\
  (forall other, other <> gurl ->
     Connector.answer (Connector.GetLoaderForURL build other w') =
     Connector.answer (Connector.GetLoaderForURL build other w)) /\
  Connector.url_to_service_factory_ (Connector.connector w') =
    Connector.url_to_service_factory_ (Connector.connector w) /\
  Connector.heap w' = Connector.heap w.
Proof.
  unfold Connector.SetLoaderForURL. destruct (_ && _); [discriminate|].
  intros [= <-]. split; [|split; [|split; reflexivity]].
  - unfold Connector.GetLoaderForURL. cbn. now rewrite find_assign_same.
  - intros other Hne. unfold Connector.GetLoaderForURL, Connector.answer.
    cbn. rewrite find_assign_other by exact Hne.
    destruct (Connector.find other _); [reflexivity|].
    destruct (_ && _); reflexivity.
Qed.

Lemma registered_loader_is_found_witness :
  exists w',
    Connector.SetLoaderForURL (chromium_build true) 9%nat Shell.other
      Shell.one_loader = ([], Connector.Returned tt w') /\
    Connector.GetLoaderForURL (chromium_build true) Shell.other w'
      = ([], Connector.Returned 9%nat w').
Proof.
  eexists. split; [vm_compute; reflexivity|].
  refine (proj1 (registered_loader_is_found (chromium_build true) 9%nat
            Shell.other Shell.one_loader _ _)).
  vm_compute; reflexivity.
Defined.

(** ** Connecting *)

Section Connecting.

Variable build : Build.

Lemma loads_of_app url a b :
  Connector.loads_of url (a ++ b) =
  (Connector.loads_of url a + Connector.loads_of url b)%nat.
Proof.
  induction a as [|c a IH]; simpl; [reflexivity|].
  destruct c; auto. destruct (String.eqb url0 url); simpl; now rewrite IH.
Qed.

Lemma accepted_app a b :
  Connector.accepted (a ++ b) = Connector.accepted a ++ Connector.accepted b.
Proof.
  induction a as [|c a IH]; simpl; [reflexivity|].
  destruct c; simpl; now rewrite IH.
Qed.

Lemma loads_of_ConnectToClient url p h :
  Connector.loads_of url (Connector.ConnectToClient p h) = 0%nat.
Proof. unfold Connector.ConnectToClient. destruct (_ h); reflexivity. Qed.

Lemma accepted_ConnectToClient p h :
  Connector.accepted (Connector.ConnectToClient p h) =
  if Connector.is_valid h then [h] else [].
Proof. unfold Connector.ConnectToClient. destruct (_ h); reflexivity. Qed.

(** One [Connect] that returns. *)
Lemma Connect_returned url h w log w1 :
  Connector.Connect build url h w = (log, Connector.Returned tt w1) ->
  (forall u, Connector.loads_of u log =
     if Connector.has_key url
          (Connector.url_to_service_factory_ (Connector.connector w))
     then 0%nat else if String.eqb url u then 1%nat else 0%nat) /\
  Connector.accepted log = (if Connector.is_valid h then [h] else []) /\
  (forall u, Connector.has_key u
               (Connector.url_to_service_factory_ (Connector.connector w1))
             = Connector.has_key u
                 (Connector.url_to_service_factory_ (Connector.connector w))
               || String.eqb u url) /\
  (forall u p,
     Connector.find u
       (Connector.url_to_service_factory_ (Connector.connector w)) = Some p ->
     Connector.find u
       (Connector.url_to_service_factory_ (Connector.connector w1)) = Some p)
  /\
  (exists p,
     Connector.find url
       (Connector.url_to_service_factory_ (Connector.connector w1)) = Some p
     /\ forall q h', In (Connector.AcceptConnection q h') log -> q = p) /\
  Connector.url_to_loader_ (Connector.connector w1) =
    Connector.url_to_loader_ (Connector.connector w) /\
  Connector.default_loader_ (Connector.connector w1) =
    Connector.default_loader_ (Connector.connector w).
Proof.
  unfold Connector.Connect, Connector.has_key.
  destruct (Connector.find url _) as [p|] eqn:Hf.
  - intros [= <- <-]. repeat split.
    + intros u. apply loads_of_ConnectToClient.
    + apply accepted_ConnectToClient.
    + intros u. destruct (String.eqb_spec u url) as [->|Hne].
      * rewrite Hf. reflexivity.
      * now rewrite orb_false_r.
    + auto.
    + exists p. split; [exact Hf|].
      unfold Connector.ConnectToClient. intros q h' Hin.
      destruct (Connector.is_valid h); simpl in Hin;
        [destruct Hin as [[= -> _]|[]]; reflexivity|contradiction].
  - unfold Connector.new_ServiceFactory, Connector.GetLoaderForURL. cbn.
    destruct (Connector.find url (Connector.url_to_loader_ _)) as [l|].
    + destruct (Nat.eqb l NULL); [discriminate|].
      intros [= <- <-]. cbn. repeat split.
      * intros u. cbn. destruct (String.eqb url u); cbn;
          now rewrite loads_of_ConnectToClient.
      * apply accepted_ConnectToClient.
      * intros u. destruct (String.eqb_spec u url) as [->|Hne].
        -- rewrite find_assign_same, Hf. reflexivity.
        -- rewrite find_assign_other by exact Hne. now rewrite orb_false_r.
      * intros u p Hu. rewrite find_assign_other; [exact Hu|].
        intros ->. congruence.
      * eexists. split; [apply find_assign_same|].
        unfold Connector.ConnectToClient. intros q h' Hin.
        destruct (Connector.is_valid h); simpl in Hin;
          intuition congruence.
    + destruct (_ && _); [discriminate|].
      destruct (Nat.eqb _ NULL); [discriminate|].
      intros [= <- <-]. cbn. repeat split.
      * intros u. cbn. destruct (String.eqb url u); cbn;
          now rewrite loads_of_ConnectToClient.
      * apply accepted_ConnectToClient.
      * intros u. destruct (String.eqb_spec u url) as [->|Hne].
        -- rewrite find_assign_same, Hf. reflexivity.
        -- rewrite find_assign_other by exact Hne. now rewrite orb_false_r.
      * intros u p Hu. rewrite find_assign_other; [exact Hu|].
        intros ->. congruence.
      * eexists. split; [apply find_assign_same|].
        unfold Connector.ConnectToClient. intros q h' Hin.
        destruct (Connector.is_valid h); simpl in Hin;
          intuition congruence.
Qed.

Lemma Connect_all_cons url h reqs w log w' :
  Connector.Connect_all build ((url, h) :: reqs) w
    = (log, Connector.Returned tt w') ->
  exists log1 w1 log2,
    Connector.Connect build url h w = (log1, Connector.Returned tt w1) /\
    Connector.Connect_all build reqs w1 = (log2, Connector.Returned tt w') /\
    log = log1 ++ log2.
Proof.
  cbn [Connector.Connect_all].
  destruct (Connector.Connect build url h w) as [log1 [[] w1| |]];
    try discriminate.
  destruct (Connector.Connect_all build reqs w1) as [log2 r2] eqn:H2.
  cbn [fst snd]. intros [= <- ->].
  exists log1, w1, log2. auto.
Qed.

End Connecting.

(** X9. Load on demand, once: in a series of [Connect] calls that all
    return, [Load] is called once for each URL that is connected to and
    had no factory yet, at its first [Connect], and never for a URL that
    already had a factory, however many times it is connected to. *)
Theorem each_URL_is_loaded_once
    (build : Build) (reqs : list (Connector.GURL * Connector.handle))
    (w : Connector.World) log w' :
  Connector.Connect_all build reqs w = (log, Connector.Returned tt w') ->
  forall u,
    Connector.loads_of u log =
    if Connector.has_key u
         (Connector.url_to_service_factory_ (Connector.connector w))
    then 0%nat
    else if existsb (String.eqb u) (map fst reqs) then 1%nat else 0%nat.
Proof.
  revert w log. induction reqs as [|[url h] reqs IH]; intros w log H u.
  - injection H as <- _. simpl. now destruct (Connector.has_key _ _).
  - destruct (Connect_all_cons build url h reqs w log w' H)
      as (log1 & w1 & log2 & H1 & H2 & ->).
    destruct (Connect_returned build url h w log1 w1 H1)
      as (Hl & _ & Hk & _).
    rewrite loads_of_app, (Hl u), (IH w1 log2 H2 u), (Hk u).
    cbn [map fst existsb]. rewrite (String.eqb_sym url u).
    destruct (String.eqb_spec u url) as [->|Hne];
      rewrite ?orb_true_r, ?orb_false_r; cbn [orb];
      repeat match goal with
             | |- context [if ?b then _ else _] => destruct b
             end;
      reflexivity.
Qed.

Lemma each_URL_is_loaded_once_witness :
  exists log w',
    Connector.Connect_all (chromium_build true)
      [(Shell.echo, 5%nat); (Shell.echo, 6%nat); (Shell.echo, 0%nat)]
      Shell.one_loader = (log, Connector.Returned tt w') /\
    Connector.loads_of Shell.echo log = 1%nat.
Proof.
  do 2 eexists. split; [vm_compute; reflexivity|].
  refine (each_URL_is_loaded_once (chromium_build true)
            [(Shell.echo, 5%nat); (Shell.echo, 6%nat); (Shell.echo, 0%nat)]
            Shell.one_loader _ _ _ Shell.echo).
  vm_compute; reflexivity.
Defined.

(** X10. In a series of [Connect] calls that all return, the handles passed
    to [AcceptConnection] are the valid client handles of the calls, in the
    order of the calls; a call with an invalid handle accepts nothing; and
    each accepted handle goes to the factory that the map holds for the URL
    of its call. *)
Theorem valid_handles_are_accepted_in_order
    (build : Build) (reqs : list (Connector.GURL * Connector.handle))
    (w : Connector.World) log w' :
  Connector.Connect_all build reqs w = (log, Connector.Returned tt w') ->
  Connector.accepted log = filter Connector.is_valid (map snd reqs) /\
  forall q h,
    In (Connector.AcceptConnection q h) log ->
    exists url,
      In (url, h) reqs /\
      Connector.find url
        (Connector.url_to_service_factory_ (Connector.connector w'))
      = Some q.
Proof.
  revert w log. induction reqs as [|[url h] reqs IH]; intros w log H.
  - injection H as <- _. split; [reflexivity|]. intros q h [].
  - destruct (Connect_all_cons build url h reqs w log w' H)
      as (log1 & w1 & log2 & H1 & H2 & ->).
    destruct (Connect_returned build url h w log1 w1 H1)
      as (_ & Ha & _ & _ & (p & Hp & Hq) & _).
    destruct (IH w1 log2 H2) as [IHa IHq].
    assert (Hmono : forall reqs0 w0 log0,
              Connector.Connect_all build reqs0 w0
                = (log0, Connector.Returned tt w') ->
              forall u x,
                Connector.find u
                  (Connector.url_to_service_factory_ (Connector.connector w0))
                  = Some x ->
                Connector.find u
                  (Connector.url_to_service_factory_ (Connector.connector w'))
                  = Some x).
    { clear. induction reqs0 as [|[url0 h0] reqs0 IH0]; intros w0 log0 H0 u x Hu.
      - injection H0 as _ <-. exact Hu.
      - destruct (Connect_all_cons build url0 h0 reqs0 w0 log0 w' H0)
          as (l1 & w1 & l2 & G1 & G2 & _).
        destruct (Connect_returned build url0 h0 w0 l1 w1 G1)
          as (_ & _ & _ & Hkeep & _).
        exact (IH0 w1 l2 G2 u x (Hkeep u x Hu)). }
    split.
    + rewrite accepted_app, Ha, IHa. cbn [map snd filter].
      destruct (Connector.is_valid h); reflexivity.
    + intros q h' Hin. apply in_app_or in Hin. destruct Hin as [Hin|Hin].
      * assert (Hh : h' = h).
        { revert Hin. clear -H1. unfold Connector.Connect in H1.
          intros Hin.
          assert (Hacc : In h' (Connector.accepted log1)).
          { clear -Hin. induction log1 as [|c l IHl]; [contradiction|].
            destruct Hin as [->|Hin]; [left; reflexivity|].
            destruct c; simpl; auto. }
          destruct (Connect_returned build url h w log1 w1) as (_ & Ha & _).
          { exact H1. }
          rewrite Ha in Hacc. destruct (Connector.is_valid h);
            simpl in Hacc; intuition. }
        subst h'. exists url. split; [left; reflexivity|].
        rewrite (Hq q h Hin).
        exact (Hmono reqs w1 log2 H2 url p Hp).
      * destruct (IHq q h' Hin) as (u & Hu & Hf).
        exists u. split; [right; exact Hu|exact Hf].
Qed.

Lemma valid_handles_are_accepted_in_order_witness :
  exists log w',
    Connector.Connect_all (chromium_build true)
      [(Shell.echo, 5%nat); (Shell.echo, 0%nat); (Shell.echo, 6%nat)]
      Shell.one_loader = (log, Connector.Returned tt w') /\
    Connector.accepted log = [5%nat; 6%nat].
Proof.
  do 2 eexists. split; [vm_compute; reflexivity|].
  refine (proj1 (valid_handles_are_accepted_in_order (chromium_build true)
            [(Shell.echo, 5%nat); (Shell.echo, 0%nat); (Shell.echo, 6%nat)]
            Shell.one_loader _ _ _)).
  vm_compute; reflexivity.
Defined.

(** ** Destruction *)

Section Values.

Variable V : Type.

Lemma find_none_assign_values k (v : V) m :
  Connector.find k m = None ->
  forall x, In x (map snd (Connector.assign k v m)) <->
            x = v \/ In x (map snd m).
Proof.
  induction m as [|[k' v'] m IH]; simpl; intros Hf x.
  - intuition.
  - destruct (String.eqb k k') eqn:Hb; [discriminate|].
    destruct (String.compare k k') eqn:C.
    + apply String.compare_eq_iff in C. subst k'.
      rewrite String.eqb_refl in Hb. discriminate.
    + simpl. intuition.
    + simpl. rewrite (IH Hf x). intuition.
Qed.

Lemma find_none_assign_NoDup k (v : V) m :
  Connector.find k m = None ->
  NoDup (map snd m) -> ~ In v (map snd m) ->
  NoDup (map snd (Connector.assign k v m)).
Proof.
  induction m as [|[k' v'] m IH]; simpl; intros Hf Hnd Hv.
  - constructor; [intros []|constructor].
  - destruct (String.eqb k k') eqn:Hb; [discriminate|].
    destruct (String.compare k k') eqn:C.
    + apply String.compare_eq_iff in C. subst k'.
      rewrite String.eqb_refl in Hb. discriminate.
    + simpl. constructor; [exact Hv|exact Hnd].
    + simpl. inversion Hnd as [|? ? Hn1 Hn2]; subst.
      constructor.
      * rewrite (find_none_assign_values k v m Hf v'). intuition.
      * apply IH; intuition.
Qed.

End Values.

Lemma Connect_keeps_well_formed (build : Build) url h w log w1 :
  Connector.well_formed w ->
  Connector.Connect build url h w = (log, Connector.Returned tt w1) ->
  Connector.well_formed w1.
Proof.
  intros (Hheap & Hlt & Hnd). unfold Connector.Connect.
  destruct (Connector.find url _) as [p|] eqn:Hf.
  - intros [= _ <-]. repeat split; assumption.
  - unfold Connector.new_ServiceFactory, Connector.GetLoaderForURL. cbn.
    assert (Hgo : Connector.well_formed
              (Connector.with_connector
                 {| Connector.default_loader_ :=
                      Connector.default_loader_ (Connector.connector w);
                    Connector.url_to_loader_ :=
                      Connector.url_to_loader_ (Connector.connector w);
                    Connector.url_to_service_factory_ :=
                      Connector.assign url (Connector.next_ptr w)
                        (Connector.url_to_service_factory_
                           (Connector.connector w)) |}
                 {| Connector.connector := Connector.connector w;
                    Connector.heap :=
                      (Connector.next_ptr w,
                       {| Connector.url_ := url;
                          Connector.shell_client_ :=
                            Connector.next_handle w |})
                      :: Connector.heap w;
                    Connector.next_ptr := S (Connector.next_ptr w);
                    Connector.next_handle :=
                      S (S (Connector.next_handle w)) |})).
    { unfold Connector.well_formed. cbn. repeat split.
      - intros p Hp. rewrite (find_none_assign_values _ url _ _ Hf p).
        destruct Hp as [<-|Hp]; auto.
      - intros p Hp. rewrite (find_none_assign_values _ url _ _ Hf p) in Hp.
        destruct Hp as [->|Hp]; [lia|]. specialize (Hlt p Hp). lia.
      - apply find_none_assign_NoDup; [exact Hf|exact Hnd|].
        intros Hin. specialize (Hlt _ Hin). lia. }
    destruct (Connector.find url (Connector.url_to_loader_ _)) as [l|].
    + destruct (Nat.eqb l NULL); [discriminate|].
      intros [= _ <-]. exact Hgo.
    + destruct (_ && _); [discriminate|].
      destruct (Nat.eqb _ NULL); [discriminate|].
      intros [= _ <-]. exact Hgo.
Qed.

Lemma filter_twice {A} (P Q : A -> bool) l :
  filter P (filter Q l) = filter (fun a => Q a && P a) l.
Proof.
  induction l as [|a l IH]; simpl; [reflexivity|].
  destruct (Q a); simpl; [destruct (P a)|]; now rewrite IH.
Qed.

Lemma filter_none {A} (P : A -> bool) l :
  (forall a, In a l -> P a = false) -> filter P l = [].
Proof.
  induction l as [|a l IH]; simpl; intros H; [reflexivity|].
  rewrite (H a (or_introl eq_refl)). apply IH. intros b Hb. apply H. auto.
Qed.

Lemma fold_free_filter m h :
  fold_left (fun h0 (kv : Connector.GURL * ptr) => Connector.free (snd kv) h0)
            m h =
  filter (fun q => forallb (fun kv => negb (Nat.eqb (fst q) (snd kv))) m) h.
Proof.
  revert h. induction m as [|kv m IH]; intros h; simpl.
  - induction h as [|q h IHh]; simpl; [reflexivity|]. now rewrite <- IHh.
  - rewrite IH. unfold Connector.free. apply filter_twice.
Qed.

(** X11. No factory outlives the connector: after any series of [Connect]
    calls that return, made on a well-formed world, the destructor deletes
    each factory of the map once (no address twice), leaves the heap and
    the map empty, and leaves the loaders, which it does not own, as they
    are. *)
Theorem destructor_deletes_every_factory
    (build : Build) (reqs : list (Connector.GURL * Connector.handle))
    (w : Connector.World) log w1 :
  Connector.well_formed w ->
  Connector.Connect_all build reqs w = (log, Connector.Returned tt w1) ->
  let d := Connector.destructor w1 in
  Connector.heap (snd d) = [] /\
  Connector.url_to_service_factory_ (Connector.connector (snd d)) = [] /\
  NoDup (fst d) /\
  length (fst d) =
    length (Connector.url_to_service_factory_ (Connector.connector w1)) /\
  Connector.url_to_loader_ (Connector.connector (snd d)) =
    Connector.url_to_loader_ (Connector.connector w) /\
  Connector.default_loader_ (Connector.connector (snd d)) =
    Connector.default_loader_ (Connector.connector w).
Proof.
  intros Hwf H.
  assert (Hinv : Connector.well_formed w1 /\
                 Connector.url_to_loader_ (Connector.connector w1) =
                   Connector.url_to_loader_ (Connector.connector w) /\
                 Connector.default_loader_ (Connector.connector w1) =
                   Connector.default_loader_ (Connector.connector w)).
  { revert w log Hwf H.
    induction reqs as [|[url h] reqs IH]; intros w log Hwf H.
    - injection H as _ <-. auto.
    - destruct (Connect_all_cons build url h reqs w log w1 H)
        as (log1 & w0 & log2 & H1 & H2 & _).
      destruct (Connect_returned build url h w log1 w0 H1)
        as (_ & _ & _ & _ & _ & Hl & Hd).
      destruct (IH w0 log2 (Connect_keeps_well_formed build _ _ _ _ _ Hwf H1)
                  H2) as (Hw & Hl' & Hd').
      split; [exact Hw|]. split; congruence. }
  destruct Hinv as ((Hheap & _ & Hnd) & Hl & Hd).
  unfold Connector.destructor. cbn. repeat split; try assumption.
  - rewrite fold_free_filter. apply filter_none. intros q Hq.
    assert (Hin : In (fst q)
                    (map snd (Connector.url_to_service_factory_
                                (Connector.connector w1))))
      by (apply Hheap; apply in_map; exact Hq).
    apply in_map_iff in Hin. destruct Hin as (kv & Hkv & Hin).
    destruct (forallb _ _) eqn:Hall; [|reflexivity].
    rewrite forallb_forall in Hall. specialize (Hall kv Hin).
    apply negb_true_iff, Nat.eqb_neq in Hall.
    exfalso. apply Hall. symmetry. exact Hkv.
  - revert Hnd. clear.
    induction (Connector.url_to_service_factory_ (Connector.connector w1))
      as [|kv m IH]; simpl; intros Hnd; [constructor|].
    inversion Hnd as [|? ? Hn1 Hn2]; subst. constructor; [|auto].
    intros Hin. apply Hn1. apply in_map_iff in Hin.
    destruct Hin as (kv' & [= Hkv] & Hin'). rewrite <- Hkv.
    apply in_map. exact Hin'.
  - apply length_map.
Qed.

Lemma destructor_deletes_every_factory_witness :
  exists log w1,
    Connector.Connect_all (chromium_build true)
      [(Shell.echo, 5%nat); (Shell.echo, 6%nat)] Shell.one_loader
      = (log, Connector.Returned tt w1) /\
    Connector.heap w1 <> [] /\
    Connector.heap (snd (Connector.destructor w1)) = [].
Proof.
  do 2 eexists. split; [vm_compute; reflexivity|].
  split; [discriminate|].
  refine (proj1 (destructor_deletes_every_factory (chromium_build true)
            [(Shell.echo, 5%nat); (Shell.echo, 6%nat)] Shell.one_loader
            _ _ _ _)).
  - unfold Connector.well_formed. simpl. repeat split.
    + intros p [].
    + intros p [].
    + constructor.
  - vm_compute; reflexivity.
Defined.

(** ** Connecting without a loader *)

(** X12. [Connect] to a URL that has no factory and no usable loader does
    not return.  With no loader registered for the URL and no default
    loader, it has made the message pipe when it stops: on the failed
    DCHECK of [GetLoaderForURL] in a build with DCHECKs on, and otherwise
    on the call of [Load] through the null default loader.  With a null
    loader registered for the URL it stops on that call in every build.
    No [Load] and no [AcceptConnection] is made. *)
Theorem Connect_without_loader
    (build : Build) (url : Connector.GURL) (h : Connector.handle)
    (w : Connector.World) :
  Connector.find url
    (Connector.url_to_service_factory_ (Connector.connector w)) = None ->
  let pipe := [Connector.CreateMessagePipe (Connector.next_handle w)
                 (S (Connector.next_handle w))] in
  (Connector.find url (Connector.url_to_loader_ (Connector.connector w))
     = None ->
   Connector.default_loader_ (Connector.connector w) = NULL ->
   Connector.Connect build url h w =
   (pipe, if DCHECK_IS_ON build then Connector.CheckFailed
          else Connector.NullDereference)) /\
  (Connector.find url (Connector.url_to_loader_ (Connector.connector w))
     = Some NULL ->
   Connector.Connect build url h w = (pipe, Connector.NullDereference)).
Proof.
  intros Hf pipe. unfold Connector.Connect. rewrite Hf.
  unfold Connector.new_ServiceFactory, Connector.GetLoaderForURL. cbn.
  split.
  - intros Hl Hd. rewrite Hl, Hd. cbn.
    destruct (DCHECK_IS_ON build); reflexivity.
  - intros Hl. rewrite Hl. reflexivity.
Qed.

Lemma Connect_without_loader_witness :
  Connector.Connect (chromium_build false) Shell.other 5%nat Shell.one_loader
  = ([Connector.CreateMessagePipe 1%nat 2%nat], Connector.NullDereference).
Proof.
  refine (proj1 (Connect_without_loader (chromium_build false) Shell.other
            5%nat Shell.one_loader _) _ _); reflexivity.
Defined.
